(** * Spy Cat Agency backend: missions, targets and cats

    A shallow embedding of [src/backend/main.py] (the FastAPI handlers and the
    SQLAlchemy rows they work on), followed by the properties of the
    mission/target completion workflow.

    - A table is a finite map from the integer primary key to the row.
    - A request handler runs in a session: it works on a private copy of the
      database and [db.commit()] publishes that copy.  The session records
      every published snapshot, so that what is persisted between two commits
      of one handler can be talked about.
    - A raised exception ends the handler; nothing it did after its last
      commit is persisted. *)

From Stdlib Require Import PrimFloat Ascii String.
From stdpp Require Import gmap strings list fin_maps sorting.

Local Open Scope Z_scope.

(** ** Rows of the three tables (the [Column]s other than the primary key) *)

Module SpyCatDB.
Record row := {
  name : string;
  years_of_experience : Z;
  breed : string;
  salary : float;
  mission_id : option Z
}.
Definition set_salary (v : float) (c : row) : row :=
  {| name := name c; years_of_experience := years_of_experience c;
     breed := breed c; salary := v; mission_id := mission_id c |}.
End SpyCatDB.

Module MissionDB.
Record row := {
  is_completed : bool;
  cat_id : option Z
}.
Definition set_is_completed (v : bool) (m : row) : row :=
  {| is_completed := v; cat_id := cat_id m |}.
End MissionDB.

Module TargetDB.
Record row := {
  name : string;
  country : string;
  notes : string;
  is_completed : bool;
  mission_id : option Z
}.
Definition set_notes (v : string) (t : row) : row :=
  {| name := name t; country := country t; notes := v;
     is_completed := is_completed t; mission_id := mission_id t |}.
Definition set_is_completed (v : bool) (t : row) : row :=
  {| name := name t; country := country t; notes := notes t;
     is_completed := v; mission_id := mission_id t |}.
End TargetDB.

Record DB := {
  spy_cats : gmap Z SpyCatDB.row;
  missions : gmap Z MissionDB.row;
  targets : gmap Z TargetDB.row
}.

Definition empty_db : DB :=
  {| spy_cats := ∅; missions := ∅; targets := ∅ |}.

(** ** Request bodies (the pydantic models) *)

Record SpyCatCreate := {
  sc_name : string;
  sc_years_of_experience : Z;
  sc_breed : string;
  sc_salary : float
}.

Record TargetCreate := {
  tc_name : string;
  tc_country : string
}.

Record MissionCreate := {
  mc_cat_id : option Z;
  mc_targets : list TargetCreate
}.

Record TargetUpdate := {
  tu_notes : option string;
  tu_is_completed : option bool
}.

(** What a handler hands back for [response_model=Mission]. *)
Record Mission := {
  m_id : Z;
  m_is_completed : bool;
  m_cat_id : option Z;
  m_targets : list (Z * TargetDB.row)
}.

(** ** Exceptions *)

Inductive py_exception :=
| HTTPException (status_code : Z) (detail : string)
| RequestValidationError
| ConnectionError
| JSONDecodeError
| TypeError
| KeyError
| AttributeError
| OverflowError
| IntegrityError
| OperationalError.

Inductive outcome (A : Type) :=
| Returned (a : A)
| Raised (e : py_exception).
Arguments Returned {A} a.
Arguments Raised {A} e.

(** The error names of the specification, as the handlers raise them. *)
Definition CatNotFound := HTTPException 404 "Cat not found".
Definition TargetNotFound := HTTPException 404 "Target not found".
Definition InvalidTargetCount := HTTPException 400 "Mission must have 1-3 targets".
Definition CatAssigned := HTTPException 400 "Cannot delete cat assigned to a mission".
Definition MissionAlreadyCompleted :=
  HTTPException 400 "Cannot update target in completed mission".
Definition NotesLockedOnCompletedTarget :=
  HTTPException 400 "Cannot update notes for completed target".

Definition is_HTTPException (e : py_exception) : bool :=
  match e with HTTPException _ _ => true | _ => false end.

(** ** Sessions *)

Record Session := {
  working : DB;          (* the rows as the handler sees them *)
  commits : list DB      (* published snapshots, the newest first *)
}.

Definition Handler (A : Type) : Type := Session → outcome A * Session.

Definition hret {A} (a : A) : Handler A := λ s, (Returned a, s).

Definition hbind {A B} (c : Handler A) (k : A → Handler B) : Handler B :=
  λ s, match c s with
       | (Returned a, s') => k a s'
       | (Raised e, s') => (Raised e, s')
       end.

Definition raise {A} (e : py_exception) : Handler A := λ s, (Raised e, s).

#[global] Instance handler_ret : MRet Handler := @hret.
#[global] Instance handler_bind : MBind Handler := λ A B k c, hbind c k.

Definition query {A} (f : DB → A) : Handler A := λ s, (Returned (f (working s)), s).

Definition modify (f : DB → DB) : Handler unit :=
  λ s, (Returned tt, {| working := f (working s); commits := commits s |}).

Definition skip : Handler unit := mret tt.

(** [db.commit()] *)
Definition commit : Handler unit :=
  λ s, (Returned tt, {| working := working s; commits := working s :: commits s |}).

(** One request against the database [db]: the response, the database that is
    persisted when the handler is over, and the snapshots it published, in
    the order of their commits. *)
Record Run (A : Type) := {
  response : outcome A;
  persisted : DB;
  trace : list DB
}.
Arguments response {A} r.
Arguments persisted {A} r.
Arguments trace {A} r.

Definition run_request {A} (h : Handler A) (db : DB) : Run A :=
  let '(r, s) := h {| working := db; commits := [] |} in
  {| response := r;
     persisted := hd db (commits s);
     trace := rev (commits s) |}.

(** ** The store *)

(** The key a new row gets: SQLite gives an [INTEGER PRIMARY KEY] the largest
    key of the table plus one, and 1 in an empty table. *)
Definition max_id {A} (tbl : gmap Z A) : Z :=
  foldr Z.max 0 (map_to_list tbl).*1.

Definition next_id {A} (tbl : gmap Z A) : Z := max_id tbl + 1.

Definition with_spy_cats (f : gmap Z SpyCatDB.row → gmap Z SpyCatDB.row) (d : DB) : DB :=
  {| spy_cats := f (spy_cats d); missions := missions d; targets := targets d |}.
Definition with_missions (f : gmap Z MissionDB.row → gmap Z MissionDB.row) (d : DB) : DB :=
  {| spy_cats := spy_cats d; missions := f (missions d); targets := targets d |}.
Definition with_targets (f : gmap Z TargetDB.row → gmap Z TargetDB.row) (d : DB) : DB :=
  {| spy_cats := spy_cats d; missions := missions d; targets := f (targets d) |}.

(** [db.add(row)] followed by the flush that gives the row its key. *)
Definition add_mission (m : MissionDB.row) : Handler Z :=
  i ← query (λ d, next_id (missions d));
  modify (with_missions (insert i m));;
  mret i.

Definition add_target (t : TargetDB.row) : Handler Z :=
  i ← query (λ d, next_id (targets d));
  modify (with_targets (insert i t));;
  mret i.

(** SQLite integers are signed 64-bit: a Python [int] outside that range
    cannot be bound to a statement. *)
Definition in_int64 (z : Z) : bool := ((- 2 ^ 63 <=? z) && (z <? 2 ^ 63))%bool.

(** The same for a cat.  The key rule ends with the last 64-bit key: there
    SQLite looks for an unused key at random and answers that the database
    is full when it finds none; here the insert is refused. *)
Definition add_spy_cat (c : SpyCatDB.row) : Handler Z :=
  i ← query (λ d, next_id (spy_cats d));
  if in_int64 i
  then modify (with_spy_cats (insert i c));; mret i
  else raise OperationalError.

(** [db.query(T).filter(T.id == key).first()].  A key outside 64 bits raises
    OverflowError when it is bound.  Every key a table holds is a 64-bit
    integer, so a row that is found was asked for with a key in range. *)
Definition first_by_id {A} (tbl : DB → gmap Z A) (key : Z) : Handler (option A) :=
  row ← query (λ d, tbl d !! key);
  match row with
  | Some r => mret (Some r)
  | None => if in_int64 key then mret None else raise OverflowError
  end.

(** What a lookup by [key] that finds no row ends in, when the handler answers
    [e] to a missing row. *)
Definition not_found (key : Z) (e : py_exception) : py_exception :=
  if in_int64 key then e else OverflowError.

(** What the flush of [db.commit()] refuses of the values it sends.  An
    integer outside 64 bits cannot be bound to the statement (OverflowError);
    a NaN is stored as NULL, which the NOT NULL [salary] column refuses
    (IntegrityError). *)
Definition bind_integer (z : Z) : Handler unit :=
  if in_int64 z then skip else raise OverflowError.

Definition flush_salary (salary : float) : Handler unit :=
  if PrimFloat.is_nan salary then raise IntegrityError else skip.

(** The relationship [MissionDB.targets]: the target rows whose [mission_id]
    is the mission's key. *)
Definition owned_by (mid : Z) (t : TargetDB.row) : bool :=
  match TargetDB.mission_id t with
  | Some i => bool_decide (i = mid)
  | None => false
  end.

Definition mission_targets (d : DB) (mid : Z) : list (Z * TargetDB.row) :=
  filter (λ kt, owned_by mid kt.2 = true) (map_to_list (targets d)).

(** The relationship [TargetDB.mission]: the key and row of the owning
    mission, [None] for a null or dangling [mission_id]. *)
Definition target_mission (d : DB) (t : TargetDB.row) : option (Z * MissionDB.row) :=
  match TargetDB.mission_id t with
  | Some i => match missions d !! i with
              | Some m => Some (i, m)
              | None => None
              end
  | None => None
  end.

(** ** The breed catalogue *)

(** A decoded JSON document, as [response.json()] returns it.  An object is
    the list of its items in insertion order. *)
#[warnings="-register-all"]
Inductive json :=
| JNull
| JBool (b : bool)
| JInt (n : Z)
| JFloat (x : float)
| JString (s : string)
| JArray (items : list json)
| JObject (members : list (string * json)).

(** What [requests.get] and [response.json()] can give: the call raises, the
    body is not JSON, or the body decodes to a document. *)
Inductive http_reply :=
| Transport_failure
| Undecodable_body
| Body (doc : json).

(** [str.lower()] on ASCII text: the letters A to Z are folded.  Python folds
    the other cased letters of Unicode as well; text with such letters is
    outside what [lower] models, and the statements that depend on the value
    of [lower] are about ASCII text ([is_ascii]). *)
Definition lower_ascii (c : Ascii.ascii) : Ascii.ascii :=
  let n := nat_of_ascii c in
  if (Nat.leb 65 n && Nat.leb n 90)%bool then ascii_of_nat (n + 32) else c.

Fixpoint lower (s : string) : string :=
  match s with
  | EmptyString => EmptyString
  | String c r => String (lower_ascii c) (lower r)
  end.

Fixpoint is_ascii (s : string) : bool :=
  match s with
  | EmptyString => true
  | String c r => (Nat.ltb (nat_of_ascii c) 128 && is_ascii r)%bool
  end.

Fixpoint chars (s : string) : list string :=
  match s with
  | EmptyString => []
  | String c r => String c EmptyString :: chars r
  end.

(** [for b in doc]: a list gives its items, a dict its keys, a string its
    characters; nothing else can be iterated. *)
Definition py_iter (doc : json) : outcome (list json) :=
  match doc with
  | JArray items => Returned items
  | JObject members => Returned (JString <$> members.*1)
  | JString s => Returned (JString <$> chars s)
  | JNull | JBool _ | JInt _ | JFloat _ => Raised TypeError
  end.

Fixpoint assoc (k : string) (members : list (string * json)) : option json :=
  match members with
  | [] => None
  | (k', v) :: r => if decide (k = k') then Some v else assoc k r
  end.

(** [b["name"]] *)
Definition py_getitem (b : json) (k : string) : outcome json :=
  match b with
  | JObject members =>
      match assoc k members with
      | Some v => Returned v
      | None => Raised KeyError
      end
  | _ => Raised TypeError
  end.

(** [v.lower()] *)
Definition py_lower (v : json) : outcome string :=
  match v with
  | JString s => Returned (lower s)
  | _ => Raised AttributeError
  end.

(** [[b["name"].lower() for b in items]] *)
Fixpoint breed_names (items : list json) : outcome (list string) :=
  match items with
  | [] => Returned []
  | b :: r =>
      match py_getitem b "name" with
      | Raised e => Raised e
      | Returned v =>
          match py_lower v with
          | Raised e => Raised e
          | Returned n =>
              match breed_names r with
              | Raised e => Raised e
              | Returned ns => Returned (n :: ns)
              end
          end
      end
  end.

Definition InvalidBreed (breeds : list string) : py_exception :=
  HTTPException 400
    ("Invalid breed. Valid breeds: " +:+ String.concat ", " (take 5 breeds) +:+ "...").

Definition validate_breed (reply : http_reply) (breed : string) : outcome unit :=
  match reply with
  | Transport_failure => Raised ConnectionError
  | Undecodable_body => Raised JSONDecodeError
  | Body doc =>
      match py_iter doc with
      | Raised e => Raised e
      | Returned items =>
          match breed_names items with
          | Raised e => Raised e
          | Returned breeds =>
              if bool_decide (lower breed ∈ breeds) then Returned tt
              else Raised (InvalidBreed breeds)
          end
      end
  end.

Definition lift {A} (o : outcome A) : Handler A := λ s, (o, s).

(** ** The handlers *)

(** Truth value of an optional integer: [None] and [0] are false. *)
Definition truthy (o : option Z) : bool :=
  match o with
  | Some i => negb (i =? 0)
  | None => false
  end.

Definition create_cat (reply : http_reply) (cat : SpyCatCreate)
    : Handler (Z * SpyCatDB.row) :=
  lift (validate_breed reply (sc_breed cat));;
  let db_cat := {| SpyCatDB.name := sc_name cat;
                   SpyCatDB.years_of_experience := sc_years_of_experience cat;
                   SpyCatDB.breed := sc_breed cat;
                   SpyCatDB.salary := sc_salary cat;
                   SpyCatDB.mission_id := None |} in
  bind_integer (sc_years_of_experience cat);;
  i ← add_spy_cat db_cat;
  flush_salary (sc_salary cat);;
  commit;;
  mret (i, db_cat).

Definition update_cat_salary (cat_id : Z) (salary : float)
    : Handler (Z * SpyCatDB.row) :=
  db_cat ← first_by_id spy_cats cat_id;
  match db_cat with
  | None => raise CatNotFound
  | Some c =>
      modify (with_spy_cats (insert cat_id (SpyCatDB.set_salary salary c)));;
      flush_salary salary;;
      commit;;
      mret (cat_id, SpyCatDB.set_salary salary c)
  end.

Definition delete_cat (cat_id : Z) : Handler string :=
  db_cat ← first_by_id spy_cats cat_id;
  match db_cat with
  | None => raise CatNotFound
  | Some c =>
      if truthy (SpyCatDB.mission_id c) then raise CatAssigned
      else
        modify (with_spy_cats (delete cat_id));;
        commit;;
        mret "Cat deleted successfully"
  end.

Fixpoint add_targets (mid : Z) (ts : list TargetCreate) : Handler unit :=
  match ts with
  | [] => skip
  | target :: r =>
      add_target {| TargetDB.name := tc_name target;
                    TargetDB.country := tc_country target;
                    TargetDB.notes := "";
                    TargetDB.is_completed := false;
                    TargetDB.mission_id := Some mid |};;
      add_targets mid r
  end.

Definition refresh_mission (i : Z) : Handler Mission :=
  query (λ d,
    let m := default {| MissionDB.is_completed := false; MissionDB.cat_id := None |}
                     (missions d !! i) in
    {| m_id := i;
       m_is_completed := MissionDB.is_completed m;
       m_cat_id := MissionDB.cat_id m;
       m_targets := mission_targets d i |}).

Definition create_mission (mission : MissionCreate) : Handler Mission :=
  let n := Z.of_nat (length (mc_targets mission)) in
  if ((n <? 1) || (3 <? n))%bool then raise InvalidTargetCount
  else
    (if truthy (mc_cat_id mission) then
       db_cat ← match mc_cat_id mission with
                | Some c => first_by_id spy_cats c
                | None => mret None
                end;
       match db_cat with
       | None => raise CatNotFound
       | Some _ => skip
       end
     else skip);;
    i ← add_mission {| MissionDB.is_completed := false;
                       MissionDB.cat_id := mc_cat_id mission |};
    commit;;
    add_targets i (mc_targets mission);;
    commit;;
    refresh_mission i.

Definition update_target (target_id : Z) (update : TargetUpdate) : Handler string :=
  db_target ← first_by_id targets target_id;
  match db_target with
  | None => raise TargetNotFound
  | Some t =>
      owner ← query (λ d, target_mission d t);
      match owner with
      | None => raise AttributeError
      | Some (mid, m) =>
          if MissionDB.is_completed m then raise MissionAlreadyCompleted
          else if (TargetDB.is_completed t && bool_decide (is_Some (tu_notes update)))%bool
          then raise NotesLockedOnCompletedTarget
          else
            (match tu_notes update with
             | Some v => modify (with_targets (alter (TargetDB.set_notes v) target_id))
             | None => skip
             end);;
            (match tu_is_completed update with
             | Some v =>
                 modify (with_targets (alter (TargetDB.set_is_completed v) target_id));;
                 all_completed ← query (λ d,
                   forallb (λ kt, TargetDB.is_completed kt.2) (mission_targets d mid));
                 if all_completed : bool
                 then modify (with_missions (alter (MissionDB.set_is_completed true) mid))
                 else skip
             | None => skip
             end);;
            commit;;
            mret "Target updated successfully"
      end
  end.

(** ** Requests and reachable databases *)

(** The constraints of [SpyCatBase]: [conint(ge=0)] and [confloat(gt=0)]. *)
Definition SpyCatCreate_valid (cat : SpyCatCreate) : bool :=
  ((0 <=? sc_years_of_experience cat) && PrimFloat.ltb 0%float (sc_salary cat))%bool.

(** The routes that write.  [CreateCat] carries what the breed catalogue
    answers to the one call the handler makes. *)
Inductive request :=
| CreateCat (reply : http_reply) (cat : SpyCatCreate)
| UpdateCatSalary (cat_id : Z) (salary : float)
| DeleteCat (cat_id : Z)
| CreateMission (mission : MissionCreate)
| UpdateTarget (target_id : Z) (update : TargetUpdate).

(** The database a request leaves behind. *)
Definition serve (r : request) (db : DB) : DB :=
  match r with
  | CreateCat reply cat =>
      if SpyCatCreate_valid cat
      then persisted (run_request (create_cat reply cat) db)
      else db
  | UpdateCatSalary cat_id salary =>
      persisted (run_request (update_cat_salary cat_id salary) db)
  | DeleteCat cat_id => persisted (run_request (delete_cat cat_id) db)
  | CreateMission mission => persisted (run_request (create_mission mission) db)
  | UpdateTarget target_id update =>
      persisted (run_request (update_target target_id update) db)
  end.

(** The databases that requests, handled one after the other, build from the
    empty one. *)
Inductive reachable : DB → Prop :=
| reachable_empty : reachable empty_db
| reachable_serve r db : reachable db → reachable (serve r db).

(** Every target of mission [mid] is completed. *)
Definition all_targets_completed (d : DB) (mid : Z) : Prop :=
  ∀ k t, targets d !! k = Some t → owned_by mid t = true →
         TargetDB.is_completed t = true.

(** A mission is completed exactly when all its targets are. *)
Definition completion_consistent (d : DB) : Prop :=
  ∀ mid m, missions d !! mid = Some m →
           (MissionDB.is_completed m = true ↔ all_targets_completed d mid).

(** Every target belongs to a mission of the database. *)
Definition targets_owned (d : DB) : Prop :=
  ∀ k t, targets d !! k = Some t →
         ∃ mid m, TargetDB.mission_id t = Some mid ∧ missions d !! mid = Some m.

(** The row [db.add] makes of one [TargetCreate] of a mission. *)
Definition new_target (mid : Z) (target : TargetCreate) : TargetDB.row :=
  {| TargetDB.name := tc_name target;
     TargetDB.country := tc_country target;
     TargetDB.notes := "";
     TargetDB.is_completed := false;
     TargetDB.mission_id := Some mid |}.

(** The targets table after the loop of [create_mission]. *)
Fixpoint insert_targets (mid : Z) (ts : list TargetCreate)
    (tbl : gmap Z TargetDB.row) : gmap Z TargetDB.row :=
  match ts with
  | [] => tbl
  | target :: r => insert_targets mid r (<[next_id tbl := new_target mid target]> tbl)
  end.

(** The catalogue answers as documented: a list of objects that each have a
    string under ["name"]. *)
Definition has_name (b : json) : bool :=
  match b with
  | JObject members =>
      match assoc "name" members with
      | Some (JString _) => true
      | _ => false
      end
  | _ => false
  end.

Definition well_formed (reply : http_reply) : bool :=
  match reply with
  | Body (JArray items) => forallb has_name items
  | _ => false
  end.

(** A body that can be iterated and has nothing in it, though it is no list. *)
Definition empty_non_list (reply : http_reply) : bool :=
  match reply with
  | Body (JObject []) => true
  | Body (JString EmptyString) => true
  | _ => false
  end.

(** The working copy [update_target] commits when no guard fires: the notes,
    then the completion flag and the mission's. *)
Definition notes_written (target_id : Z) (update : TargetUpdate) (d : DB) : DB :=
  match tu_notes update with
  | Some v => with_targets (alter (TargetDB.set_notes v) target_id) d
  | None => d
  end.

Definition completion_written (target_id mid : Z) (update : TargetUpdate) (d : DB) : DB :=
  match tu_is_completed update with
  | Some v =>
      let d' := with_targets (alter (TargetDB.set_is_completed v) target_id) d in
      if forallb (λ kt, TargetDB.is_completed kt.2) (mission_targets d' mid)
      then with_missions (alter (MissionDB.set_is_completed true) mid) d'
      else d'
  | None => d
  end.

Definition updated (target_id mid : Z) (update : TargetUpdate) (d : DB) : DB :=
  completion_written target_id mid update (notes_written target_id update d).

(** The two snapshots [create_mission] publishes. *)
Definition mission_added (mission : MissionCreate) (d : DB) : DB :=
  with_missions (insert (next_id (missions d))
                   {| MissionDB.is_completed := false;
                      MissionDB.cat_id := mc_cat_id mission |}) d.

Definition targets_added (mission : MissionCreate) (d : DB) : DB :=
  with_targets (insert_targets (next_id (missions d)) (mc_targets mission))
    (mission_added mission d).

(** The cat check of [create_mission] lets the request through. *)
Definition cat_accepted (d : DB) (cat_id : option Z) : bool :=
  if truthy cat_id then bool_decide (is_Some (cat_id ≫= λ c, spy_cats d !! c)) else true.

Definition target_count_ok (mission : MissionCreate) : bool :=
  let n := Z.of_nat (length (mc_targets mission)) in
  ((1 <=? n) && (n <=? 3))%bool.

(** ** Databases that can be observed *)

(** The databases that are persisted at some moment: those of [reachable],
    and with them the snapshots that [create_mission] publishes on the way,
    from which other requests can be served, and what the second commit of a
    [create_mission] makes of a database that has moved on since its first
    commit: the targets go to the mission that has none yet. *)
Inductive observable : DB → Prop :=
| observable_empty : observable empty_db
| observable_serve r db : observable db → observable (serve r db)
| observable_snapshot mission db d :
    observable db →
    d ∈ trace (run_request (create_mission mission) db) →
    observable d
| observable_second_commit mission i db :
    observable db →
    target_count_ok mission = true →
    is_Some (missions db !! i) → mission_targets db i = [] →
    observable (with_targets (insert_targets i (mc_targets mission)) db).

(** Mission [mid] owns a target. *)
Definition has_target (d : DB) (mid : Z) : Prop :=
  ∃ k t, targets d !! k = Some t ∧ owned_by mid t = true.


(** ** The statements the code does not meet, as the specification words them *)


(** No request turns a completed target back into a pending one. *)
Definition target_completion_never_reverts : Prop :=
  ∀ db target_id update k t t',
    reachable db →
    targets db !! k = Some t → TargetDB.is_completed t = true →
    targets (persisted (run_request (update_target target_id update) db)) !! k = Some t' →
    TargetDB.is_completed t' = true.

(** No snapshot that [create_mission] publishes has a mission without targets. *)
Definition mission_never_without_targets : Prop :=
  ∀ db mission d mid m,
    reachable db →
    d ∈ trace (run_request (create_mission mission) db) →
    missions d !! mid = Some m →
    mission_targets d mid ≠ [].

(** A catalogue that cannot be reached or read is reported to the client as an
    error of its own, told apart from an invalid breed. *)
Definition breed_failure_is_reported : Prop :=
  ∀ reply breed,
    well_formed reply = false →
    ∃ status_code detail,
      validate_breed reply breed = Raised (HTTPException status_code detail) ∧
      ∀ breeds, HTTPException status_code detail ≠ InvalidBreed breeds.

(** A cat id that names no cat makes [create_mission] fail with [CatNotFound]
    and persist nothing. *)
Definition unknown_cat_is_CatNotFound : Prop :=
  ∀ db mission c,
    mc_cat_id mission = Some c → spy_cats db !! c = None →
    run_request (create_mission mission) db =
    {| response := Raised CatNotFound; persisted := db; trace := [] |}.

(** ** Sample requests *)

Definition target_a : TargetCreate := {| tc_name := "Alpha"; tc_country := "Norway" |}.
Definition target_b : TargetCreate := {| tc_name := "Bravo"; tc_country := "Chile" |}.
Definition target_c : TargetCreate := {| tc_name := "Charlie"; tc_country := "Kenya" |}.
Definition target_d : TargetCreate := {| tc_name := "Delta"; tc_country := "Japan" |}.

Definition two_targets : MissionCreate :=
  {| mc_cat_id := None; mc_targets := [target_a; target_b] |}.
Definition no_target : MissionCreate := {| mc_cat_id := None; mc_targets := [] |}.
Definition one_target : MissionCreate := {| mc_cat_id := None; mc_targets := [target_a] |}.
Definition three_targets : MissionCreate :=
  {| mc_cat_id := None; mc_targets := [target_a; target_b; target_c] |}.
Definition four_targets : MissionCreate :=
  {| mc_cat_id := None; mc_targets := [target_a; target_b; target_c; target_d] |}.

Definition complete : TargetUpdate := {| tu_notes := None; tu_is_completed := Some true |}.
Definition reopen : TargetUpdate := {| tu_notes := None; tu_is_completed := Some false |}.
Definition annotate (v : string) : TargetUpdate :=
  {| tu_notes := Some v; tu_is_completed := None |}.


(** One mission with two pending targets; then the first one completed; then
    both, which completes the mission. *)
Definition db_pending : DB := serve (CreateMission two_targets) empty_db.
Definition db_half : DB := serve (UpdateTarget 1 complete) db_pending.
Definition db_completed : DB := serve (UpdateTarget 2 complete) db_half.

Definition catalogue : http_reply :=
  Body (JArray [JObject [("id", JString "pers"); ("name", JString "Persian")];
                JObject [("id", JString "siam"); ("name", JString "Siamese")]]).

Definition tom : SpyCatCreate :=
  {| sc_name := "Tom"; sc_years_of_experience := 3;
     sc_breed := "persian"; sc_salary := 1000%float |}.

Definition db_tom : DB := serve (CreateCat catalogue tom) empty_db.

(** Tom, then a mission that names him in [cat_id]. *)
Definition tom_mission : MissionCreate :=
  {| mc_cat_id := Some 1; mc_targets := [target_a] |}.

Definition db_tom_on_mission : DB := serve (CreateMission tom_mission) db_tom.

(** ** The reading routes *)

Definition read_cat (cat_id : Z) : Handler (Z * SpyCatDB.row) :=
  db_cat ← first_by_id spy_cats cat_id;
  match db_cat with
  | None => raise CatNotFound
  | Some c => mret (cat_id, c)
  end.

(** The rows of [spy_cats] as a query without [ORDER BY] lists them: SQLite
    scans the table by increasing key. *)
Definition key_le (a b : Z * SpyCatDB.row) : Prop := a.1 ≤ b.1.

#[global] Instance key_le_dec a b : Decision (key_le a b) := Z_le_dec a.1 b.1.

Definition scan_spy_cats (d : DB) : list (Z * SpyCatDB.row) :=
  merge_sort key_le (map_to_list (spy_cats d)).

(** [OFFSET skip]: a negative offset counts as zero.  Both [skip] and [limit]
    are bound as SQLite integers. *)
Definition offset_rows {A} (skip : Z) (rows : list A) : list A :=
  drop (Z.to_nat skip) rows.

(** [LIMIT limit]: a negative limit is no limit. *)
Definition limit_rows {A} (limit : Z) (rows : list A) : list A :=
  if limit <? 0 then rows else take (Z.to_nat limit) rows.

Definition read_cats (skip limit : Z) : Handler (list (Z * SpyCatDB.row)) :=
  if (in_int64 skip && in_int64 limit)%bool
  then query (λ d, limit_rows limit (offset_rows skip (scan_spy_cats d)))
  else raise OverflowError.

(** ** Sequences of requests *)

Definition serve_all (rs : list request) (db : DB) : DB :=
  foldl (λ d r, serve r d) db rs.

(** The names a well-formed catalogue lists, as they are sent. *)
Definition catalogue_name (b : json) : option string :=
  match b with
  | JObject members =>
      match assoc "name" members with
      | Some (JString n) => Some n
      | _ => None
      end
  | _ => None
  end.

(** The row [create_cat] makes of the request. *)
Definition new_cat (cat : SpyCatCreate) : SpyCatDB.row :=
  {| SpyCatDB.name := sc_name cat;
     SpyCatDB.years_of_experience := sc_years_of_experience cat;
     SpyCatDB.breed := sc_breed cat;
     SpyCatDB.salary := sc_salary cat;
     SpyCatDB.mission_id := None |}.

(** Every key of the three tables is positive. *)
Definition positive_keys (d : DB) : Prop :=
  (∀ k c, spy_cats d !! k = Some c → 1 ≤ k) ∧
  (∀ k m, missions d !! k = Some m → 1 ≤ k) ∧
  (∀ k t, targets d !! k = Some t → 1 ≤ k).

(** What the cat routes keep true of every cat. *)
Definition cats_unassigned (d : DB) : Prop :=
  ∀ k c, spy_cats d !! k = Some c →
         SpyCatDB.mission_id c = None ∧ 0 ≤ SpyCatDB.years_of_experience c.

(** * Properties *)

(** ** Keys *)

Lemma foldr_max_ge (l : list Z) k : k ∈ l → k ≤ foldr Z.max 0 l.
Proof.
  induction l as [|x l IH]; simpl; [by intros ?%elem_of_nil|].
  intros [->|Hin]%elem_of_cons; [lia|]. specialize (IH Hin). lia.
Qed.

Lemma max_id_ge {A} (tbl : gmap Z A) k v : tbl !! k = Some v → k ≤ max_id tbl.
Proof.
  intros Hk. apply foldr_max_ge, list_elem_of_fmap.
  exists (k, v). split; [done|]. by apply elem_of_map_to_list.
Qed.

Lemma next_id_fresh {A} (tbl : gmap Z A) : tbl !! next_id tbl = None.
Proof.
  destruct (tbl !! next_id tbl) as [v|] eqn:E; [|done].
  apply max_id_ge in E. unfold next_id in E. lia.
Qed.

(** ** The relationship between a mission and its targets *)

Lemma elem_of_mission_targets d mid k t :
  (k, t) ∈ mission_targets d mid ↔ targets d !! k = Some t ∧ owned_by mid t = true.
Proof.
  unfold mission_targets. rewrite list_elem_of_filter, elem_of_map_to_list. simpl. tauto.
Qed.

Lemma forallb_mission_targets d mid :
  forallb (λ kt, TargetDB.is_completed kt.2) (mission_targets d mid) = true
  ↔ all_targets_completed d mid.
Proof.
  rewrite forallb_forall. unfold all_targets_completed. split.
  - intros H k t Hk Ho. apply (H (k, t)), list_elem_of_In, elem_of_mission_targets. done.
  - intros H [k t] [Hk Ho]%list_elem_of_In%elem_of_mission_targets. simpl. eauto.
Qed.

(** ** Running the handlers *)

Ltac run_handler :=
  unfold first_by_id, bind_integer, flush_salary, not_found;
  unfold run_request, mbind, mret, handler_bind, handler_ret, hbind, hret,
    query, modify, commit, raise, skip, lift; simpl.

Lemma add_targets_run mid ts s :
  add_targets mid ts s =
  (Returned tt, {| working := with_targets (insert_targets mid ts) (working s);
                   commits := commits s |}).
Proof.
  revert s. induction ts as [|target r IH]; intros [d cs]; simpl.
  - by destruct d.
  - unfold add_target. run_handler. rewrite IH. simpl. done.
Qed.

Lemma update_target_run target_id update db :
  run_request (update_target target_id update) db =
  match targets db !! target_id with
  | None => {| response := Raised (not_found target_id TargetNotFound);
               persisted := db; trace := [] |}
  | Some t =>
      match target_mission db t with
      | None => {| response := Raised AttributeError; persisted := db; trace := [] |}
      | Some (mid, m) =>
          if MissionDB.is_completed m
          then {| response := Raised MissionAlreadyCompleted; persisted := db; trace := [] |}
          else if (TargetDB.is_completed t && bool_decide (is_Some (tu_notes update)))%bool
          then {| response := Raised NotesLockedOnCompletedTarget;
                  persisted := db; trace := [] |}
          else {| response := Returned "Target updated successfully";
                  persisted := updated target_id mid update db;
                  trace := [updated target_id mid update db] |}
      end
  end.
Proof.
  unfold update_target. run_handler.
  destruct (targets db !! target_id) as [t|]; [|by destruct (in_int64 target_id)]. simpl.
  destruct (target_mission db t) as [[mid m]|]; [|done]. simpl.
  destruct (MissionDB.is_completed m); [done|].
  destruct (TargetDB.is_completed t && _)%bool; [done|].
  unfold updated, notes_written, completion_written.
  destruct (tu_notes update), (tu_is_completed update); simpl;
    repeat match goal with |- context [if ?b then _ else _] => destruct b end; done.
Qed.

Lemma create_mission_run mission db :
  run_request (create_mission mission) db =
  if negb (target_count_ok mission)
  then {| response := Raised InvalidTargetCount; persisted := db; trace := [] |}
  else if negb (cat_accepted db (mc_cat_id mission))
  then {| response := Raised (not_found (default 0 (mc_cat_id mission)) CatNotFound);
          persisted := db; trace := [] |}
  else {| response :=
            Returned {| m_id := next_id (missions db);
                        m_is_completed := false;
                        m_cat_id := mc_cat_id mission;
                        m_targets := mission_targets (targets_added mission db)
                                       (next_id (missions db)) |};
          persisted := targets_added mission db;
          trace := [mission_added mission db; targets_added mission db] |}.
Proof.
  unfold create_mission, target_count_ok, cat_accepted.
  set (n := Z.of_nat _).
  replace ((n <? 1) || (3 <? n))%bool with (negb ((1 <=? n) && (n <=? 3)))%bool
    by (destruct (Z.ltb_spec n 1), (Z.ltb_spec 3 n), (Z.leb_spec 1 n), (Z.leb_spec n 3);
        simpl; lia || done).
  destruct ((1 <=? n) && (n <=? 3))%bool; simpl; [|done].
  unfold add_mission, refresh_mission.
  destruct (truthy (mc_cat_id mission)) eqn:Ht; run_handler.
  - destruct mission as [[c|] ts]; [|done]. simpl in *.
    destruct (spy_cats db !! c) eqn:E; simpl; [|by destruct (in_int64 c)].
    rewrite add_targets_run. simpl.
    unfold targets_added, mission_added, with_targets, with_missions; simpl.
    rewrite lookup_insert_eq. done.
  - rewrite add_targets_run. simpl.
    unfold targets_added, mission_added, with_targets, with_missions; simpl.
    rewrite lookup_insert_eq. done.
Qed.

Lemma create_cat_run reply cat db :
  run_request (create_cat reply cat) db =
  match validate_breed reply (sc_breed cat) with
  | Raised e => {| response := Raised e; persisted := db; trace := [] |}
  | Returned _ =>
      if negb (in_int64 (sc_years_of_experience cat))
      then {| response := Raised OverflowError; persisted := db; trace := [] |}
      else if negb (in_int64 (next_id (spy_cats db)))
      then {| response := Raised OperationalError; persisted := db; trace := [] |}
      else if PrimFloat.is_nan (sc_salary cat)
      then {| response := Raised IntegrityError; persisted := db; trace := [] |}
      else
        {| response := Returned (next_id (spy_cats db), new_cat cat);
           persisted := with_spy_cats (insert (next_id (spy_cats db)) (new_cat cat)) db;
           trace := [with_spy_cats (insert (next_id (spy_cats db)) (new_cat cat)) db] |}
  end.
Proof.
  unfold create_cat, add_spy_cat. run_handler.
  destruct (validate_breed reply (sc_breed cat)); [|done]. simpl.
  destruct (in_int64 (sc_years_of_experience cat)); [|done]. simpl.
  destruct (in_int64 (next_id (spy_cats db))); [|done]. simpl.
  by destruct (PrimFloat.is_nan (sc_salary cat)).
Qed.

Lemma update_cat_salary_run cat_id salary db :
  run_request (update_cat_salary cat_id salary) db =
  match spy_cats db !! cat_id with
  | None => {| response := Raised (not_found cat_id CatNotFound);
               persisted := db; trace := [] |}
  | Some c =>
      if PrimFloat.is_nan salary
      then {| response := Raised IntegrityError; persisted := db; trace := [] |}
      else
        {| response := Returned (cat_id, SpyCatDB.set_salary salary c);
           persisted := with_spy_cats (insert cat_id (SpyCatDB.set_salary salary c)) db;
           trace := [with_spy_cats (insert cat_id (SpyCatDB.set_salary salary c)) db] |}
  end.
Proof.
  unfold update_cat_salary. run_handler.
  destruct (spy_cats db !! cat_id) as [c|]; [|by destruct (in_int64 cat_id)]. simpl.
  by destruct (PrimFloat.is_nan salary).
Qed.

Lemma delete_cat_run cat_id db :
  run_request (delete_cat cat_id) db =
  match spy_cats db !! cat_id with
  | None => {| response := Raised (not_found cat_id CatNotFound);
               persisted := db; trace := [] |}
  | Some c =>
      if truthy (SpyCatDB.mission_id c)
      then {| response := Raised CatAssigned; persisted := db; trace := [] |}
      else {| response := Returned "Cat deleted successfully";
              persisted := with_spy_cats (delete cat_id) db;
              trace := [with_spy_cats (delete cat_id) db] |}
  end.
Proof.
  unfold delete_cat. run_handler.
  destruct (spy_cats db !! cat_id) as [c|]; [|by destruct (in_int64 cat_id)].
  simpl. by destruct (truthy (SpyCatDB.mission_id c)).
Qed.

Lemma read_cat_run cat_id db :
  run_request (read_cat cat_id) db =
  {| response := match spy_cats db !! cat_id with
                 | Some c => Returned (cat_id, c)
                 | None => Raised (not_found cat_id CatNotFound)
                 end;
     persisted := db; trace := [] |}.
Proof.
  unfold read_cat. run_handler.
  destruct (spy_cats db !! cat_id); [done|by destruct (in_int64 cat_id)].
Qed.

Lemma read_cats_run skip limit db :
  run_request (read_cats skip limit) db =
  {| response := if (in_int64 skip && in_int64 limit)%bool
                 then Returned (limit_rows limit (offset_rows skip (scan_spy_cats db)))
                 else Raised OverflowError;
     persisted := db; trace := [] |}.
Proof. unfold read_cats. by destruct (in_int64 skip && in_int64 limit)%bool. Qed.

(** ** The loop that adds the targets *)

Lemma insert_targets_old mid ts (tbl : gmap Z TargetDB.row) k t :
  tbl !! k = Some t → insert_targets mid ts tbl !! k = Some t.
Proof.
  revert tbl. induction ts as [|target r IH]; intros tbl Hk; simpl; [done|].
  apply IH. rewrite lookup_insert_ne; [done|].
  intros E. rewrite <- E, next_id_fresh in Hk. done.
Qed.

Lemma insert_targets_lookup mid ts (tbl : gmap Z TargetDB.row) k t :
  insert_targets mid ts tbl !! k = Some t →
  tbl !! k = Some t ∨ (tbl !! k = None ∧ ∃ target, target ∈ ts ∧ t = new_target mid target).
Proof.
  revert tbl. induction ts as [|target r IH]; intros tbl; simpl; [by left|].
  intros [Hk|[Hk (target' & Hin & ->)]]%IH.
  - destruct (decide (next_id tbl = k)) as [<-|Hne].
    + rewrite lookup_insert_eq in Hk. injection Hk as <-.
      right. split; [apply next_id_fresh|]. exists target. split; [left|done].
    + rewrite lookup_insert_ne in Hk by done. by left.
  - right. destruct (decide (next_id tbl = k)) as [<-|Hne].
    + by rewrite lookup_insert_eq in Hk.
    + rewrite lookup_insert_ne in Hk by done. split; [done|].
      exists target'. split; [by right|done].
Qed.

Lemma owned_by_new_target mid mid' target :
  owned_by mid' (new_target mid target) = bool_decide (mid = mid').
Proof. done. Qed.

Lemma owned_targets_insert mid k t (tbl : gmap Z TargetDB.row) :
  tbl !! k = None →
  length (filter (λ kt : Z * TargetDB.row, owned_by mid kt.2 = true)
            (map_to_list (<[k := t]> tbl))) =
  ((if owned_by mid t then 1 else 0) +
   length (filter (λ kt : Z * TargetDB.row, owned_by mid kt.2 = true) (map_to_list tbl)))%nat.
Proof.
  intros Hk. rewrite (map_to_list_insert tbl k t Hk).
  rewrite filter_cons. simpl. destruct (owned_by mid t) eqn:E.
  - rewrite decide_True by done. done.
  - rewrite decide_False by (rewrite ?E; done). done.
Qed.

Lemma owned_targets_insert_targets mid ts (tbl : gmap Z TargetDB.row) :
  length (filter (λ kt : Z * TargetDB.row, owned_by mid kt.2 = true)
            (map_to_list (insert_targets mid ts tbl))) =
  (length ts +
   length (filter (λ kt : Z * TargetDB.row, owned_by mid kt.2 = true) (map_to_list tbl)))%nat.
Proof.
  revert tbl. induction ts as [|target r IH]; intros tbl; simpl; [done|].
  rewrite IH, owned_targets_insert by apply next_id_fresh.
  rewrite owned_by_new_target, bool_decide_true by done. lia.
Qed.

(** ** What [update_target] writes *)

Lemma targets_updated target_id mid update d k :
  targets (updated target_id mid update d) !! k =
  if decide (k = target_id)
  then (λ t, TargetDB.set_is_completed
               (default (TargetDB.is_completed t) (tu_is_completed update))
               (TargetDB.set_notes (default (TargetDB.notes t) (tu_notes update)) t))
       <$> targets d !! k
  else targets d !! k.
Proof.
  unfold updated, completion_written, notes_written.
  destruct (tu_is_completed update) as [v|], (tu_notes update) as [n|]; simpl;
    repeat match goal with |- context [if forallb ?f ?l then _ else _] =>
             destruct (forallb f l) end; simpl;
    destruct (decide (k = target_id)) as [->|Hne];
    rewrite ?lookup_alter_eq, ?lookup_alter_ne by done;
    try done; by destruct (targets d !! target_id) as [[]|].
Qed.

Lemma mission_targets_with_missions f d mid :
  mission_targets (with_missions f d) mid = mission_targets d mid.
Proof. done. Qed.

Lemma missions_updated target_id mid update d :
  missions (updated target_id mid update d) =
  match tu_is_completed update with
  | Some _ =>
      if forallb (λ kt, TargetDB.is_completed kt.2)
           (mission_targets (updated target_id mid update d) mid)
      then alter (MissionDB.set_is_completed true) mid (missions d)
      else missions d
  | None => missions d
  end.
Proof.
  unfold updated, completion_written.
  destruct (tu_is_completed update) as [v|].
  - cbv zeta.
    destruct (forallb _ (mission_targets (with_targets _ _) mid)) eqn:E.
    + rewrite mission_targets_with_missions, E.
      unfold notes_written. by destruct (tu_notes update).
    + rewrite E. unfold notes_written. by destruct (tu_notes update).
  - unfold notes_written. by destruct (tu_notes update).
Qed.

Lemma spy_cats_updated target_id mid update d :
  spy_cats (updated target_id mid update d) = spy_cats d.
Proof.
  unfold updated, completion_written, notes_written.
  destruct (tu_is_completed update) as [v|], (tu_notes update) as [n|]; simpl;
    repeat match goal with |- context [if forallb ?f ?l then _ else _] =>
             destruct (forallb f l) end; done.
Qed.

(** ** The invariants of the store *)

Lemma all_targets_completed_ext d d' mid :
  (∀ k, (λ t, (owned_by mid t, TargetDB.is_completed t)) <$> targets d' !! k
        = (λ t, (owned_by mid t, TargetDB.is_completed t)) <$> targets d !! k) →
  all_targets_completed d mid → all_targets_completed d' mid.
Proof.
  intros Hext Hall k t Hk Ho. specialize (Hext k). rewrite Hk in Hext. simpl in Hext.
  destruct (targets d !! k) as [t0|] eqn:E; [|done]. simpl in Hext.
  injection Hext as Ho' Hc'. rewrite Hc'. apply (Hall k t0 E). congruence.
Qed.

Lemma targets_owned_updated target_id mid update d :
  targets_owned d → targets_owned (updated target_id mid update d).
Proof.
  intros Hown k t. rewrite targets_updated, missions_updated.
  assert (Hm : ∀ i m, missions d !! i = Some m →
    ∃ m', match tu_is_completed update with
          | Some _ =>
              if forallb (λ kt, TargetDB.is_completed kt.2)
                   (mission_targets (updated target_id mid update d) mid)
              then alter (MissionDB.set_is_completed true) mid (missions d)
              else missions d
          | None => missions d
          end !! i = Some m').
  { intros i m Hi. destruct (tu_is_completed update); [|eauto].
    destruct (forallb _ _); [|eauto].
    destruct (decide (mid = i)) as [->|Hne].
    - rewrite lookup_alter_eq, Hi. simpl. eauto.
    - rewrite lookup_alter_ne by done. eauto. }
  destruct (decide (k = target_id)) as [->|Hne].
  - destruct (targets d !! target_id) as [t0|] eqn:E; [|done]. simpl.
    intros [= <-]. destruct (Hown _ _ E) as (i & m & Hi & Hmi).
    destruct (Hm _ _ Hmi) as [m' Hm']. exists i, m'. done.
  - intros Hk. destruct (Hown _ _ Hk) as (i & m & Hi & Hmi).
    destruct (Hm _ _ Hmi) as [m' Hm']. exists i, m'. done.
Qed.

Lemma completion_consistent_updated target_id mid update d t m :
  targets d !! target_id = Some t →
  target_mission d t = Some (mid, m) →
  MissionDB.is_completed m = false →
  completion_consistent d →
  completion_consistent (updated target_id mid update d).
Proof.
  intros Ht Hown Hm Hinv.
  assert (Hmid : TargetDB.mission_id t = Some mid ∧ missions d !! mid = Some m).
  { unfold target_mission in Hown. destruct (TargetDB.mission_id t) as [i|]; [|done].
    destruct (missions d !! i) eqn:E; [|done]. injection Hown as -> ->. done. }
  destruct Hmid as [Hid Hmm].
  intros mid' m' Hm'.
  destruct (decide (mid' = mid)) as [->|Hne].
  - (* the owning mission *)
    rewrite <- forallb_mission_targets.
    rewrite missions_updated in Hm'.
    destruct (tu_is_completed update) as [v|] eqn:Ev.
    + destruct (forallb _ (mission_targets _ mid)) eqn:Eall.
      * rewrite lookup_alter_eq, Hmm in Hm'. injection Hm' as <-. done.
      * rewrite Hmm in Hm'. injection Hm' as <-. rewrite Hm. done.
    + rewrite Hmm in Hm'. injection Hm' as <-. rewrite Hm.
      split; [done|]. intros Hall%forallb_mission_targets.
      apply Hinv in Hmm. rewrite Hm in Hmm. apply Hmm.
      revert Hall. apply all_targets_completed_ext. intros k.
      rewrite targets_updated, Ev.
      destruct (decide (k = target_id)) as [->|]; [|done].
      rewrite Ht. done.
  - (* another mission: neither its row nor its targets changed *)
    assert (Hrow : missions d !! mid' = Some m').
    { rewrite missions_updated in Hm'. destruct (tu_is_completed update); [|done].
      destruct (forallb _ _); [|done]. by rewrite lookup_alter_ne in Hm'. }
    rewrite (Hinv _ _ Hrow). split.
    + intros Hall k t' Hk Ho.
      destruct (decide (k = target_id)) as [->|Hk'].
      * rewrite targets_updated, decide_True, Ht in Hk by done. simpl in Hk.
        injection Hk as <-. unfold owned_by in Ho. simpl in Ho. rewrite Hid in Ho.
        apply bool_decide_eq_true in Ho. congruence.
      * rewrite targets_updated, decide_False in Hk by done. eauto.
    + intros Hall k t' Hk Ho.
      destruct (decide (k = target_id)) as [->|Hk'].
      * rewrite Ht in Hk. injection Hk as <-. unfold owned_by in Ho. rewrite Hid in Ho.
        apply bool_decide_eq_true in Ho. congruence.
      * apply (Hall k t'); [|done]. by rewrite targets_updated, decide_False.
Qed.

Lemma target_count_ok_nonempty mission :
  target_count_ok mission = true → mc_targets mission ≠ [].
Proof.
  unfold target_count_ok. intros H E. rewrite E in H. done.
Qed.

Lemma targets_owned_added mission d :
  targets_owned d → targets_owned (targets_added mission d).
Proof.
  intros Hown k t. unfold targets_added, mission_added. simpl.
  intros [Hk|[_ (target & _ & ->)]]%insert_targets_lookup.
  - destruct (Hown _ _ Hk) as (i & m & Hi & Hm). exists i, m. split; [done|].
    rewrite lookup_insert_ne; [done|]. intros E. rewrite <- E, next_id_fresh in Hm. done.
  - eexists _, _. split; [done|]. apply lookup_insert_eq.
Qed.

Lemma completion_consistent_added mission d :
  target_count_ok mission = true →
  targets_owned d →
  completion_consistent d →
  completion_consistent (targets_added mission d).
Proof.
  intros Hcount Hown Hinv mid m. unfold targets_added, mission_added. simpl.
  destruct (decide (next_id (missions d) = mid)) as [<-|Hne].
  - (* the new mission: its first target is pending *)
    rewrite lookup_insert_eq. intros [= <-]. simpl. split; [done|]. intros Hall.
    destruct (mc_targets mission) as [|target r] eqn:E;
      [by apply target_count_ok_nonempty in Hcount|].
    specialize (Hall (next_id (targets d)) (new_target (next_id (missions d)) target)).
    simpl in Hall. apply Hall.
    + apply insert_targets_old, lookup_insert_eq.
    + unfold owned_by. simpl. by rewrite bool_decide_true.
  - (* an older mission: the new targets are not its own *)
    rewrite lookup_insert_ne by done. intros Hm. rewrite (Hinv _ _ Hm). split.
    + intros Hall k t [Hk|[_ (target & _ & ->)]]%insert_targets_lookup Ho.
      * eauto.
      * rewrite owned_by_new_target in Ho. by apply bool_decide_eq_true in Ho.
    + intros Hall k t Hk Ho. apply (Hall k t); [|done]. simpl.
      by apply insert_targets_old.
Qed.

(** The cat routes touch neither missions nor targets. *)
Lemma create_cat_frame reply cat db :
  missions (persisted (run_request (create_cat reply cat) db)) = missions db ∧
  targets (persisted (run_request (create_cat reply cat) db)) = targets db.
Proof.
  rewrite create_cat_run. destruct (validate_breed reply (sc_breed cat)); [|done].
  destruct (in_int64 (sc_years_of_experience cat)); [|done]. simpl.
  destruct (in_int64 (next_id (spy_cats db))); [|done]. simpl.
  by destruct (PrimFloat.is_nan (sc_salary cat)).
Qed.

Lemma update_cat_salary_frame cat_id salary db :
  missions (persisted (run_request (update_cat_salary cat_id salary) db)) = missions db ∧
  targets (persisted (run_request (update_cat_salary cat_id salary) db)) = targets db.
Proof.
  rewrite update_cat_salary_run. destruct (spy_cats db !! cat_id); [|done].
  by destruct (PrimFloat.is_nan salary).
Qed.

Lemma delete_cat_frame cat_id db :
  missions (persisted (run_request (delete_cat cat_id) db)) = missions db ∧
  targets (persisted (run_request (delete_cat cat_id) db)) = targets db.
Proof.
  rewrite delete_cat_run. destruct (spy_cats db !! cat_id) as [c|]; [|done].
  by destruct (truthy (SpyCatDB.mission_id c)).
Qed.

Lemma store_invariants_frame d d' :
  missions d' = missions d → targets d' = targets d →
  targets_owned d ∧ completion_consistent d →
  targets_owned d' ∧ completion_consistent d'.
Proof.
  unfold targets_owned, completion_consistent, all_targets_completed.
  intros -> ->. done.
Qed.

Lemma serve_invariants r db :
  targets_owned db ∧ completion_consistent db →
  targets_owned (serve r db) ∧ completion_consistent (serve r db).
Proof.
  intros [Hown Hinv]. destruct r as [reply cat|cat_id salary|cat_id|mission|target_id update];
    simpl.
  - destruct (SpyCatCreate_valid cat); [|done].
    destruct (create_cat_frame reply cat db). by apply (store_invariants_frame db).
  - destruct (update_cat_salary_frame cat_id salary db).
    by apply (store_invariants_frame db).
  - destruct (delete_cat_frame cat_id db). by apply (store_invariants_frame db).
  - rewrite create_mission_run.
    destruct (target_count_ok mission) eqn:Hc; simpl; [|done].
    destruct (cat_accepted db (mc_cat_id mission)); simpl; [|done].
    split; [by apply targets_owned_added|by apply completion_consistent_added].
  - rewrite update_target_run.
    destruct (targets db !! target_id) as [t|] eqn:Ht; [|done].
    destruct (target_mission db t) as [[mid m]|] eqn:Hm; [|done].
    destruct (MissionDB.is_completed m) eqn:Hc; [done|].
    destruct (TargetDB.is_completed t && _)%bool; [done|]. simpl.
    split; [by apply targets_owned_updated|].
    by apply (completion_consistent_updated _ _ _ _ t m).
Qed.

Lemma reachable_invariants db :
  reachable db → targets_owned db ∧ completion_consistent db.
Proof.
  induction 1 as [|r db _ IH]; [|by apply serve_invariants].
  split; intros k t; simpl; by rewrite lookup_empty.
Qed.

(** ** Completion of missions and targets *)

Lemma reachable_db_pending : reachable db_pending.
Proof. apply reachable_serve, reachable_empty. Qed.

Lemma reachable_db_half : reachable db_half.
Proof. apply reachable_serve, reachable_db_pending. Qed.

(** C2, as the code has it.  A completed target becomes pending again through
    exactly one kind of request: an [update_target] addressed to it that
    carries [is_completed = false] and no notes, while its mission is not
    completed.  Every other request leaves a completed target completed. *)
Theorem target_completion_reverts_only_on_request db target_id update k t t' :
  targets db !! k = Some t →
  TargetDB.is_completed t = true →
  targets (persisted (run_request (update_target target_id update) db)) !! k = Some t' →
  (TargetDB.is_completed t' = false ↔
   k = target_id ∧ tu_is_completed update = Some false ∧ tu_notes update = None ∧
   ∃ mid m, target_mission db t = Some (mid, m) ∧ MissionDB.is_completed m = false).
Proof.
  intros Hk Hc. rewrite update_target_run.
  destruct (decide (k = target_id)) as [->|Hne].
  - rewrite Hk. destruct (target_mission db t) as [[mid m]|] eqn:Hm; simpl.
    + destruct (MissionDB.is_completed m) eqn:Hmc; simpl.
      { rewrite Hk. intros [= <-]. rewrite Hc. split; [done|].
        intros (_ & _ & _ & ? & ? & [= <- <-] & ?). congruence. }
      rewrite Hc. simpl. destruct (tu_notes update) as [n|] eqn:Hn; simpl.
      { rewrite Hk. intros [= <-]. rewrite Hc. split; [done|]. by intros (_ & _ & ? & _). }
      rewrite targets_updated, decide_True, Hk by done. simpl. intros [= <-]. simpl.
      destruct (tu_is_completed update) as [[]|]; simpl.
      * split; [done|]. by intros (_ & ? & _).
      * split; [|done]. intros _. repeat split; eauto.
      * rewrite Hc. split; [done|]. by intros (_ & ? & _).
    + rewrite Hk. intros [= <-]. rewrite Hc. split; [done|].
      by intros (_ & _ & _ & ? & ? & ? & _).
  - intros Hk'. assert (t' = t) as ->.
    { destruct (targets db !! target_id) as [t0|]; [|simpl in Hk'; congruence].
      destruct (target_mission db t0) as [[mid m]|]; [|simpl in Hk'; congruence].
      destruct (MissionDB.is_completed m); [simpl in Hk'; congruence|].
      destruct (TargetDB.is_completed t0 && _)%bool; simpl in Hk'; [congruence|].
      rewrite targets_updated, decide_False in Hk' by done. congruence. }
    rewrite Hc. split; [done|]. by intros [? _].
Qed.

Lemma target_completion_reverts_only_on_request_witness :
  ∃ t', targets (persisted (run_request (update_target 1 reopen) db_half)) !! 1 = Some t' ∧
        TargetDB.is_completed t' = false.
Proof.
  exists (new_target 1 target_a). split; [vm_compute; reflexivity|].
  apply (target_completion_reverts_only_on_request db_half 1 reopen 1
           (TargetDB.set_is_completed true (new_target 1 target_a))
           (new_target 1 target_a)).
  - vm_compute. reflexivity.
  - reflexivity.
  - vm_compute. reflexivity.
  - repeat split. eexists 1, _. split; [vm_compute; reflexivity|reflexivity].
Defined.

Lemma target_completion_reverts : ¬ target_completion_never_reverts.
Proof.
  intros H.
  specialize (H db_half 1 reopen 1
                (TargetDB.set_is_completed true (new_target 1 target_a))
                (new_target 1 target_a) reachable_db_half).
  discriminate H; vm_compute; reflexivity.
Qed.

(** ** Creating a mission *)

Lemma mission_targets_nil d mid :
  (∀ k t, targets d !! k = Some t → owned_by mid t = false) → mission_targets d mid = [].
Proof.
  intros H. destruct (mission_targets d mid) as [|[k t] l] eqn:E; [done|].
  assert (Hin : (k, t) ∈ mission_targets d mid) by (rewrite E; left).
  apply elem_of_mission_targets in Hin as [Hk Ho]. rewrite (H _ _ Hk) in Ho. done.
Qed.

Lemma no_targets_of_next_mission d :
  targets_owned d → mission_targets d (next_id (missions d)) = [].
Proof.
  intros Hown. apply mission_targets_nil. intros k t Hk.
  destruct (Hown _ _ Hk) as (i & m & Hi & Hm). unfold owned_by. rewrite Hi.
  apply bool_decide_eq_false. intros ->. by rewrite next_id_fresh in Hm.
Qed.

Lemma length_mission_targets_added mission d :
  targets_owned d →
  length (mission_targets (targets_added mission d) (next_id (missions d))) =
  length (mc_targets mission).
Proof.
  intros Hown. unfold mission_targets, targets_added. simpl.
  rewrite owned_targets_insert_targets.
  fold (mission_targets d (next_id (missions d))).
  rewrite no_targets_of_next_mission by done. simpl. lia.
Qed.

Lemma target_count_ok_iff mission :
  target_count_ok mission = true ↔ (1 ≤ length (mc_targets mission) ≤ 3)%nat.
Proof. unfold target_count_ok. rewrite andb_true_iff, !Z.leb_le. lia. Qed.

(** C3, as the code has it.  [create_mission] publishes two snapshots: the
    first has the new mission row and none of its targets, the second adds
    all of its targets at once.  No snapshot has only some of the targets;
    when the handler returns the mission owns as many targets as the request
    listed, between one and three.  A request that is refused publishes
    nothing. *)
Theorem create_mission_two_commits db mission :
  reachable db →
  match response (run_request (create_mission mission) db) with
  | Raised _ =>
      trace (run_request (create_mission mission) db) = [] ∧
      persisted (run_request (create_mission mission) db) = db
  | Returned r =>
      ∃ d1 d2,
        trace (run_request (create_mission mission) db) = [d1; d2] ∧
        persisted (run_request (create_mission mission) db) = d2 ∧
        missions db !! m_id r = None ∧
        missions d1 !! m_id r =
          Some {| MissionDB.is_completed := false; MissionDB.cat_id := mc_cat_id mission |} ∧
        targets d1 = targets db ∧
        mission_targets d1 (m_id r) = [] ∧
        missions d2 = missions d1 ∧
        length (mission_targets d2 (m_id r)) = length (mc_targets mission) ∧
        (1 ≤ length (mc_targets mission) ≤ 3)%nat
  end.
Proof.
  intros [Hown _]%reachable_invariants. rewrite create_mission_run.
  destruct (target_count_ok mission) eqn:Hc; simpl; [|done].
  destruct (cat_accepted db (mc_cat_id mission)); simpl; [|done].
  exists (mission_added mission db), (targets_added mission db).
  repeat split; try done.
  - apply next_id_fresh.
  - simpl. apply lookup_insert_eq.
  - by apply (no_targets_of_next_mission db).
  - by apply length_mission_targets_added.
  - by apply target_count_ok_iff.
  - by apply target_count_ok_iff.
Qed.

Lemma create_mission_two_commits_witness :
  ∃ d1 d2,
    trace (run_request (create_mission two_targets) empty_db) = [d1; d2] ∧
    mission_targets d1 1 = [] ∧ length (mission_targets d2 1) = 2%nat.
Proof.
  pose proof (create_mission_two_commits empty_db two_targets reachable_empty) as H.
  change (response (run_request (create_mission two_targets) empty_db))
    with (Returned {| m_id := 1; m_is_completed := false; m_cat_id := None;
                      m_targets := mission_targets db_pending 1 |}) in H.
  destruct H as (d1 & d2 & Ht & _ & _ & _ & _ & Hnil & _ & Hlen & _).
  exists d1, d2. auto.
Defined.

Lemma create_mission_publishes_mission_alone : ¬ mission_never_without_targets.
Proof.
  intros H.
  apply (H empty_db two_targets (mission_added two_targets empty_db) 1
           {| MissionDB.is_completed := false; MissionDB.cat_id := None |}
           reachable_empty).
  - rewrite create_mission_run. simpl. left.
  - reflexivity.
  - reflexivity.
Qed.

(** C7, as the code has it.  A request whose cat id is not zero and names no
    cat is refused and nothing is persisted.  The target count is checked
    first: without one to three targets the answer is [InvalidTargetCount].
    Otherwise it is [CatNotFound] when the id is a 64-bit integer, the range
    of the store's keys; an id outside that range makes the lookup itself
    raise OverflowError. *)
Theorem create_mission_unknown_cat db mission c :
  mc_cat_id mission = Some c → c ≠ 0 → spy_cats db !! c = None →
  run_request (create_mission mission) db =
  {| response := Raised (if target_count_ok mission
                         then if in_int64 c then CatNotFound else OverflowError
                         else InvalidTargetCount);
     persisted := db; trace := [] |}.
Proof.
  intros Hc Hz Hnone. rewrite create_mission_run.
  destruct (target_count_ok mission); simpl; [|done].
  unfold cat_accepted. rewrite Hc. simpl.
  destruct (Z.eqb_spec c 0) as [|_]; [done|]. simpl.
  rewrite Hnone, bool_decide_false by (by intros [? ?]). done.
Qed.

Lemma create_mission_unknown_cat_witness :
  run_request (create_mission {| mc_cat_id := Some 7; mc_targets := [target_a] |}) empty_db =
  {| response := Raised CatNotFound; persisted := empty_db; trace := [] |}.
Proof.
  apply (create_mission_unknown_cat empty_db
           {| mc_cat_id := Some 7; mc_targets := [target_a] |} 7).
  - reflexivity.
  - lia.
  - reflexivity.
Defined.

Lemma unknown_cat_without_targets : ¬ unknown_cat_is_CatNotFound.
Proof.
  intros H.
  specialize (H empty_db {| mc_cat_id := Some 7; mc_targets := [] |} 7 eq_refl eq_refl).
  rewrite create_mission_run in H. simpl in H. discriminate H.
Qed.

(** The cat id 0 is not looked up: the request goes through and the mission
    keeps the id of a cat that does not exist. *)
Remark create_mission_cat_id_zero :
  spy_cats empty_db !! 0 = None ∧
  ∃ r, response (run_request
                   (create_mission {| mc_cat_id := Some 0; mc_targets := [target_a] |})
                   empty_db) = Returned r ∧ m_cat_id r = Some 0.
Proof. split; [done|]. rewrite create_mission_run. simpl. eauto. Qed.

(** C8. [create_mission] refuses a request with no target or with four and
    more with [InvalidTargetCount] and persists nothing; a request with one
    to three targets whose cat check passes returns the new mission, pending,
    and persists it. *)
Theorem create_mission_target_count db mission :
  ((length (mc_targets mission) = 0 ∨ 4 ≤ length (mc_targets mission))%nat →
   run_request (create_mission mission) db =
   {| response := Raised InvalidTargetCount; persisted := db; trace := [] |}) ∧
  ((1 ≤ length (mc_targets mission) ≤ 3)%nat →
   cat_accepted db (mc_cat_id mission) = true →
   ∃ r, response (run_request (create_mission mission) db) = Returned r ∧
        m_is_completed r = false ∧
        missions db !! m_id r = None ∧
        missions (persisted (run_request (create_mission mission) db)) !! m_id r =
          Some {| MissionDB.is_completed := false; MissionDB.cat_id := mc_cat_id mission |}).
Proof.
  rewrite create_mission_run. split.
  - intros Hlen. destruct (target_count_ok mission) eqn:Hc; [|done].
    apply target_count_ok_iff in Hc. lia.
  - intros Hc%target_count_ok_iff Hcat. rewrite Hc, Hcat. simpl.
    eexists. repeat split; simpl.
    + apply next_id_fresh.
    + apply lookup_insert_eq.
Qed.

Lemma create_mission_target_count_witness :
  response (run_request (create_mission no_target) empty_db) = Raised InvalidTargetCount ∧
  response (run_request (create_mission four_targets) empty_db) = Raised InvalidTargetCount ∧
  (∃ r, response (run_request (create_mission one_target) empty_db) = Returned r) ∧
  (∃ r, response (run_request (create_mission three_targets) empty_db) = Returned r).
Proof.
  split; [|split; [|split]].
  - destruct (create_mission_target_count empty_db no_target) as [Hbad _].
    rewrite Hbad; [done|]. simpl. lia.
  - destruct (create_mission_target_count empty_db four_targets) as [Hbad _].
    rewrite Hbad; [done|]. simpl. lia.
  - destruct (create_mission_target_count empty_db one_target) as [_ Hgood].
    destruct Hgood as (r & Hr & _); [simpl; lia|reflexivity|]. eauto.
  - destruct (create_mission_target_count empty_db three_targets) as [_ Hgood].
    destruct Hgood as (r & Hr & _); [simpl; lia|reflexivity|]. eauto.
Defined.

(** ** Updating a target *)

(** C4. A target of a completed mission cannot be updated: whatever the
    request carries, [update_target] raises [MissionAlreadyCompleted] and
    nothing is written. *)
Theorem update_target_in_completed_mission db target_id update t mid m :
  targets db !! target_id = Some t →
  target_mission db t = Some (mid, m) →
  MissionDB.is_completed m = true →
  run_request (update_target target_id update) db =
  {| response := Raised MissionAlreadyCompleted; persisted := db; trace := [] |}.
Proof.
  intros Ht Hm Hc. rewrite update_target_run, Ht, Hm, Hc. done.
Qed.

Lemma update_target_in_completed_mission_witness :
  run_request (update_target 2 (annotate "seen at the harbour")) db_completed =
  {| response := Raised MissionAlreadyCompleted; persisted := db_completed; trace := [] |}.
Proof.
  apply (update_target_in_completed_mission db_completed 2 _
           (TargetDB.set_is_completed true (new_target 1 target_b)) 1
           {| MissionDB.is_completed := true; MissionDB.cat_id := None |}).
  - vm_compute. reflexivity.
  - vm_compute. reflexivity.
  - reflexivity.
Defined.

Lemma set_is_completed_same t :
  TargetDB.set_is_completed (TargetDB.is_completed t) t = t.
Proof. by destruct t. Qed.

Lemma with_targets_same f d : f (targets d) = targets d → with_targets f d = d.
Proof. unfold with_targets. intros ->. by destruct d. Qed.

(** C9. Completing a target that is completed already changes nothing: the
    request is refused, because the mission is completed or because it also
    carries notes, or it returns and the database is the one it started from.
    In particular the mission is not completed by it. *)
Theorem update_target_complete_again db target_id update t :
  reachable db →
  targets db !! target_id = Some t →
  TargetDB.is_completed t = true →
  tu_is_completed update = Some true →
  persisted (run_request (update_target target_id update) db) = db ∧
  (response (run_request (update_target target_id update) db)
     = Returned "Target updated successfully" ∨
   trace (run_request (update_target target_id update) db) = [] ∧
   (response (run_request (update_target target_id update) db)
      = Raised MissionAlreadyCompleted ∨
    response (run_request (update_target target_id update) db)
      = Raised NotesLockedOnCompletedTarget)).
Proof.
  intros [Hown Hinv]%reachable_invariants Ht Hc Hu.
  rewrite update_target_run, Ht.
  destruct (Hown _ _ Ht) as (mid & m & Hid & Hm).
  unfold target_mission. rewrite Hid, Hm.
  destruct (MissionDB.is_completed m) eqn:Hmc; simpl; [by auto|].
  rewrite Hc. simpl. destruct (tu_notes update) as [n|] eqn:Hn; simpl; [by auto|].
  split; [|by left].
  unfold updated, notes_written, completion_written. rewrite Hn, Hu. cbv zeta.
  assert (Hsame : with_targets (alter (TargetDB.set_is_completed true) target_id) db = db).
  { apply with_targets_same, alter_id. intros t' Ht'. rewrite Ht in Ht'.
    injection Ht' as <-. rewrite <- Hc at 1. apply set_is_completed_same. }
  rewrite Hsame.
  destruct (forallb _ (mission_targets db mid)) eqn:Hall; [|done].
  apply forallb_mission_targets, (Hinv _ _ Hm) in Hall. congruence.
Qed.

Lemma update_target_complete_again_witness :
  persisted (run_request (update_target 1 complete) db_half) = db_half.
Proof.
  apply (update_target_complete_again db_half 1 complete
           (TargetDB.set_is_completed true (new_target 1 target_a))).
  - apply reachable_db_half.
  - vm_compute. reflexivity.
  - reflexivity.
  - reflexivity.
Defined.

(** C10. A successful [update_target] whose body has no [is_completed] leaves
    the cats, the missions and every other target as they were; of the
    addressed target only the notes can differ. *)
Theorem update_target_notes_only db target_id update msg :
  response (run_request (update_target target_id update) db) = Returned msg →
  tu_is_completed update = None →
  spy_cats (persisted (run_request (update_target target_id update) db)) = spy_cats db ∧
  missions (persisted (run_request (update_target target_id update) db)) = missions db ∧
  (∀ k, k ≠ target_id →
        targets (persisted (run_request (update_target target_id update) db)) !! k
        = targets db !! k) ∧
  ∃ t, targets db !! target_id = Some t ∧
       targets (persisted (run_request (update_target target_id update) db)) !! target_id
       = Some (TargetDB.set_notes (default (TargetDB.notes t) (tu_notes update)) t).
Proof.
  rewrite update_target_run. intros Hr Hu.
  destruct (targets db !! target_id) as [t|] eqn:Ht; [|done].
  destruct (target_mission db t) as [[mid m]|]; [|done].
  destruct (MissionDB.is_completed m); [done|].
  destruct (TargetDB.is_completed t && _)%bool; [done|]. simpl.
  split; [apply spy_cats_updated|].
  split; [by rewrite missions_updated, Hu|].
  split.
  - intros k Hk. by rewrite targets_updated, decide_False.
  - exists t. split; [done|]. rewrite targets_updated, decide_True, Ht, Hu by done.
    simpl. by destruct t.
Qed.

Lemma update_target_notes_only_witness :
  missions (persisted (run_request (update_target 2 (annotate "seen at the harbour")) db_half))
  = missions db_half.
Proof.
  apply (update_target_notes_only db_half 2 (annotate "seen at the harbour")
           "Target updated successfully").
  - vm_compute. reflexivity.
  - reflexivity.
Defined.

(** ** The breed catalogue *)

Lemma breed_names_ill_formed items :
  forallb has_name items = false →
  ∃ e, breed_names items = Raised e ∧ is_HTTPException e = false.
Proof.
  induction items as [|b r IH]; simpl; [done|].
  destruct (has_name b) eqn:Hb; simpl.
  - intros (e & He & Hh)%IH. unfold has_name in Hb.
    destruct b as [| | | | |?|members]; try done. simpl.
    destruct (assoc "name" members) as [[| | | |s| |]|]; try done. simpl.
    rewrite He. eauto.
  - intros _. unfold has_name in Hb.
    destruct b as [| | | | |?|members]; simpl; try by (eexists; split).
    destruct (assoc "name" members) as [[| | | |s| |]|]; simpl; try done;
      by (eexists; split).
Qed.

(** C5, as the code has it.  When the catalogue cannot be reached or its
    answer is not a list of objects with a string name, [validate_breed]
    never accepts the breed.  It raises an exception that no handler turns
    into an HTTP error of its own (ConnectionError, JSONDecodeError,
    TypeError, KeyError or AttributeError); only an empty object or an empty
    string, which iterate to nothing, end in [InvalidBreed] with no breed to
    suggest. *)
Theorem validate_breed_catalogue_failure reply breed :
  well_formed reply = false →
  validate_breed reply breed ≠ Returned tt ∧
  if empty_non_list reply
  then validate_breed reply breed = Raised (InvalidBreed [])
  else ∃ e, validate_breed reply breed = Raised e ∧ is_HTTPException e = false.
Proof.
  intros Hwf.
  assert (H : if empty_non_list reply
              then validate_breed reply breed = Raised (InvalidBreed [])
              else ∃ e, validate_breed reply breed = Raised e ∧ is_HTTPException e = false).
  { destruct reply as [| |doc]; simpl; [by eexists|by eexists|].
    destruct doc as [|b|n|x|s|items|members]; simpl; try by eexists.
    - destruct s as [|c s]; simpl; [done|]. by eexists.
    - simpl in Hwf. destruct (breed_names_ill_formed _ Hwf) as (e & -> & He). eauto.
    - destruct members as [|[k v] r]; simpl; [done|]. by eexists. }
  split; [|done].
  destruct (empty_non_list reply); [by rewrite H|].
  destruct H as (e & -> & _). done.
Qed.

Lemma validate_breed_catalogue_failure_witness :
  validate_breed Transport_failure "persian" ≠ Returned tt ∧
  validate_breed (Body (JObject [("message", JString "rate limited")])) "persian"
    ≠ Returned tt.
Proof.
  split.
  - apply (validate_breed_catalogue_failure Transport_failure "persian"). reflexivity.
  - apply (validate_breed_catalogue_failure
             (Body (JObject [("message", JString "rate limited")])) "persian").
    reflexivity.
Defined.

Lemma transport_failure_is_not_reported : ¬ breed_failure_is_reported.
Proof.
  intros H. destruct (H Transport_failure "persian" eq_refl) as (status & detail & Hr & _).
  discriminate Hr.
Qed.

(** ** Salaries *)

(** C6.  [update_cat_salary] checks nothing about the salary: sent [-5] for
    Tom, whose creation did check [salary > 0], it returns the cat and
    persists the negative salary. *)
Theorem update_cat_salary_stores_negative :
  SpyCatDB.salary <$> spy_cats db_tom !! 1 = Some 1000%float ∧
  PrimFloat.ltb 0%float (-5)%float = false ∧
  SpyCatCreate_valid {| sc_name := "Tom"; sc_years_of_experience := 3;
                        sc_breed := "persian"; sc_salary := (-5)%float |} = false ∧
  (∃ c, response (run_request (update_cat_salary 1 (-5)%float) db_tom) = Returned (1, c) ∧
        SpyCatDB.salary c = (-5)%float) ∧
  SpyCatDB.salary
    <$> spy_cats (persisted (run_request (update_cat_salary 1 (-5)%float) db_tom)) !! 1
  = Some (-5)%float.
Proof.
  assert (Htom : spy_cats db_tom !! 1 =
                 Some {| SpyCatDB.name := "Tom"; SpyCatDB.years_of_experience := 3;
                         SpyCatDB.breed := "persian"; SpyCatDB.salary := 1000%float;
                         SpyCatDB.mission_id := None |}) by (vm_compute; reflexivity).
  rewrite update_cat_salary_run, Htom.
  change (PrimFloat.is_nan (-5)%float) with false. simpl.
  rewrite lookup_insert_eq. repeat split; eauto.
Qed.

(** The same for every cat and every salary that is a number. *)
Lemma update_cat_salary_unchecked db cat_id salary c :
  spy_cats db !! cat_id = Some c → PrimFloat.is_nan salary = false →
  SpyCatDB.salary
    <$> spy_cats (persisted (run_request (update_cat_salary cat_id salary) db)) !! cat_id
  = Some salary.
Proof.
  intros Hc Hn. rewrite update_cat_salary_run, Hc, Hn. simpl.
  by rewrite lookup_insert_eq.
Qed.

(** * Further properties *)

(** ** Accepting a breed *)

Lemma has_name_catalogue_name b :
  has_name b = true ↔ is_Some (catalogue_name b).
Proof.
  unfold has_name, catalogue_name. destruct b as [| | | | | |members]; simpl;
    try (split; [done|by intros [? ?]]).
  destruct (assoc "name" members) as [[]|]; split; try done; try (by intros [? ?]); eauto.
Qed.

Lemma breed_names_well_formed items :
  forallb has_name items = true →
  breed_names items = Returned (lower <$> omap catalogue_name items).
Proof.
  induction items as [|b r IH]; simpl; [done|].
  intros [Hb Hr]%andb_true_iff. rewrite (IH Hr).
  unfold has_name in Hb. unfold catalogue_name.
  destruct b as [| | | | | |members]; try done. simpl.
  destruct (assoc "name" members) as [[]|]; try done.
Qed.

(** X1. With a well-formed catalogue of ASCII names, an ASCII breed is
    accepted exactly when the catalogue lists a name that differs from it in
    the case of its letters at most. *)
Theorem validate_breed_accepts_iff items breed :
  well_formed (Body (JArray items)) = true →
  forallb is_ascii (omap catalogue_name items) = true →
  is_ascii breed = true →
  (validate_breed (Body (JArray items)) breed = Returned tt ↔
   ∃ b n, b ∈ items ∧ catalogue_name b = Some n ∧ lower n = lower breed).
Proof.
  simpl. intros Hwf _ _. rewrite (breed_names_well_formed _ Hwf).
  case_bool_decide as Hin.
  - split; [intros _|done].
    apply list_elem_of_fmap in Hin as (n & Hn & Hin).
    apply list_elem_of_omap in Hin as (b & Hb & Hbn). eauto.
  - split; [done|]. intros (b & n & Hb & Hbn & Hl). destruct Hin.
    rewrite <- Hl. apply list_elem_of_fmap. exists n. split; [done|].
    apply list_elem_of_omap. eauto.
Qed.

Lemma validate_breed_accepts_iff_witness :
  validate_breed catalogue "PERSIAN" = Returned tt.
Proof.
  apply (validate_breed_accepts_iff
           [JObject [("id", JString "pers"); ("name", JString "Persian")];
            JObject [("id", JString "siam"); ("name", JString "Siamese")]] "PERSIAN").
  - reflexivity.
  - reflexivity.
  - reflexivity.
  - exists (JObject [("id", JString "pers"); ("name", JString "Persian")]), "Persian".
    split; [left|split; reflexivity].
Defined.

(** X2. With a well-formed catalogue of ASCII names and an ASCII breed,
    [validate_breed] never ends in an exception of Python's own: it accepts
    the breed or raises the 400 [InvalidBreed], whose message samples the
    catalogue's names in lower case. *)
Theorem validate_breed_well_formed items breed :
  well_formed (Body (JArray items)) = true →
  forallb is_ascii (omap catalogue_name items) = true →
  is_ascii breed = true →
  validate_breed (Body (JArray items)) breed = Returned tt ∨
  validate_breed (Body (JArray items)) breed
  = Raised (InvalidBreed (lower <$> omap catalogue_name items)) ∧
    length (omap catalogue_name items) = length items.
Proof.
  simpl. intros Hwf _ _. rewrite (breed_names_well_formed _ Hwf).
  case_bool_decide; [by left|right]. split; [done|].
  clear -Hwf. induction items as [|b r IH]; [done|].
  cbn [forallb] in Hwf. apply andb_true_iff in Hwf as [Hb Hr].
  apply has_name_catalogue_name in Hb as [n Hn].
  change (omap catalogue_name (b :: r))
    with (match catalogue_name b with
          | Some n => n :: omap catalogue_name r
          | None => omap catalogue_name r
          end).
  rewrite Hn. cbn [length]. by rewrite (IH Hr).
Qed.

Lemma validate_breed_well_formed_witness :
  validate_breed catalogue "sphynx" = Raised (InvalidBreed ["persian"; "siamese"]).
Proof.
  destruct (validate_breed_well_formed
              [JObject [("id", JString "pers"); ("name", JString "Persian")];
               JObject [("id", JString "siam"); ("name", JString "Siamese")]] "sphynx"
              eq_refl eq_refl eq_refl) as [H|[H _]].
  - discriminate H.
  - exact H.
Defined.

(** ** Cats *)

(** X3. When the breed is accepted and the row can be stored (the experience
    is a 64-bit integer, the salary is not NaN, and the next key of the table
    is a 64-bit integer),
    [create_cat] stores the request as a new row under a key no cat had, with
    no mission, in one commit; the other cats, the missions and the targets
    stay as they were, and [read_cat] of the returned key gives the same cat
    back. *)
Theorem create_cat_then_read reply cat db :
  validate_breed reply (sc_breed cat) = Returned tt →
  in_int64 (sc_years_of_experience cat) = true →
  PrimFloat.is_nan (sc_salary cat) = false →
  in_int64 (next_id (spy_cats db)) = true →
  ∃ i,
    response (run_request (create_cat reply cat) db) = Returned (i, new_cat cat) ∧
    spy_cats db !! i = None ∧
    persisted (run_request (create_cat reply cat) db)
      = with_spy_cats (insert i (new_cat cat)) db ∧
    trace (run_request (create_cat reply cat) db)
      = [persisted (run_request (create_cat reply cat) db)] ∧
    response (run_request (read_cat i) (persisted (run_request (create_cat reply cat) db)))
      = Returned (i, new_cat cat).
Proof.
  intros Hv Hy Hs Hk. rewrite create_cat_run, Hv, Hy, Hk, Hs.
  exists (next_id (spy_cats db)). simpl.
  repeat split; [apply next_id_fresh|]. rewrite read_cat_run. simpl.
  by rewrite lookup_insert_eq.
Qed.

Lemma create_cat_then_read_witness :
  ∃ i, response (run_request (read_cat i)
                   (persisted (run_request (create_cat catalogue tom) empty_db)))
       = Returned (i, new_cat tom).
Proof.
  destruct (create_cat_then_read catalogue tom empty_db eq_refl eq_refl eq_refl eq_refl)
    as (i & _ & _ & _ & _ & Hr).
  exists i. exact Hr.
Defined.

(** X4. When breed validation raises, [create_cat] raises the same exception
    and stores no cat. *)
Theorem create_cat_refused reply cat db e :
  validate_breed reply (sc_breed cat) = Raised e →
  run_request (create_cat reply cat) db =
  {| response := Raised e; persisted := db; trace := [] |}.
Proof. intros Hv. by rewrite create_cat_run, Hv. Qed.

Lemma create_cat_refused_witness :
  run_request (create_cat Undecodable_body tom) db_tom =
  {| response := Raised JSONDecodeError; persisted := db_tom; trace := [] |}.
Proof. apply (create_cat_refused Undecodable_body tom db_tom JSONDecodeError). reflexivity. Defined.



(** X6. For a 64-bit key that names no cat, [read_cat], [update_cat_salary]
    and [delete_cat] all raise [CatNotFound] and persist nothing. *)
Theorem cat_not_found cat_id salary db :
  spy_cats db !! cat_id = None →
  in_int64 cat_id = true →
  run_request (read_cat cat_id) db
    = {| response := Raised CatNotFound; persisted := db; trace := [] |} ∧
  run_request (update_cat_salary cat_id salary) db
    = {| response := Raised CatNotFound; persisted := db; trace := [] |} ∧
  run_request (delete_cat cat_id) db
    = {| response := Raised CatNotFound; persisted := db; trace := [] |}.
Proof.
  intros Hc Hr. rewrite read_cat_run, delete_cat_run, update_cat_salary_run, Hc.
  unfold not_found. by rewrite Hr.
Qed.

Lemma cat_not_found_witness :
  run_request (delete_cat 2) db_tom
  = {| response := Raised CatNotFound; persisted := db_tom; trace := [] |}.
Proof.
  apply (cat_not_found 2 0%float db_tom).
  - vm_compute. reflexivity.
  - reflexivity.
Defined.

(** ** What every reachable database satisfies *)

Lemma serve_spy_cats r db k c' :
  spy_cats (serve r db) !! k = Some c' →
  (∃ c, spy_cats db !! k = Some c ∧
        SpyCatDB.name c' = SpyCatDB.name c ∧
        SpyCatDB.years_of_experience c' = SpyCatDB.years_of_experience c ∧
        SpyCatDB.breed c' = SpyCatDB.breed c ∧
        SpyCatDB.mission_id c' = SpyCatDB.mission_id c) ∨
  (spy_cats db !! k = None ∧
   ∃ reply cat, r = CreateCat reply cat ∧ SpyCatCreate_valid cat = true ∧ c' = new_cat cat).
Proof.
  destruct r as [reply cat|cat_id salary|cat_id|mission|target_id update]; simpl.
  - destruct (SpyCatCreate_valid cat) eqn:Hvalid; [|by left; eauto 10].
    rewrite create_cat_run. destruct (validate_breed reply (sc_breed cat));
      simpl; [|by left; eauto 10].
    destruct (in_int64 (sc_years_of_experience cat)); simpl; [|by left; eauto 10].
    destruct (in_int64 (next_id (spy_cats db))); simpl; [|by left; eauto 10].
    destruct (PrimFloat.is_nan (sc_salary cat)); simpl; [by left; eauto 10|].
    destruct (decide (k = next_id (spy_cats db))) as [->|Hne].
    + rewrite lookup_insert_eq. intros [= <-]. right.
      split; [apply next_id_fresh|eauto].
    + rewrite lookup_insert_ne by done. left. eauto 10.
  - rewrite update_cat_salary_run.
    destruct (spy_cats db !! cat_id) as [c|] eqn:Hc; simpl; [|by left; eauto 10].
    destruct (PrimFloat.is_nan salary); simpl; [by left; eauto 10|].
    destruct (decide (k = cat_id)) as [->|Hne].
    + rewrite lookup_insert_eq. intros [= <-]. left. exists c. by destruct c.
    + rewrite lookup_insert_ne by done. left. eauto 10.
  - rewrite delete_cat_run. destruct (spy_cats db !! cat_id) as [c|] eqn:Hc;
      [|by left; eauto 10].
    destruct (truthy (SpyCatDB.mission_id c)); simpl; [by left; eauto 10|].
    intros [_ Hk]%lookup_delete_Some. left. eauto 10.
  - rewrite create_mission_run. destruct (target_count_ok mission); simpl;
      [|by left; eauto 10].
    destruct (cat_accepted db (mc_cat_id mission)); simpl; by left; eauto 10.
  - rewrite update_target_run.
    destruct (targets db !! target_id) as [t|]; [|by left; eauto 10].
    destruct (target_mission db t) as [[mid m]|]; [|by left; eauto 10].
    destruct (MissionDB.is_completed m); [by left; eauto 10|].
    destruct (TargetDB.is_completed t && _)%bool; simpl; [by left; eauto 10|].
    rewrite spy_cats_updated. left. eauto 10.
Qed.

(** X7. No request changes the name, the experience, the breed or the mission
    of a cat: a cat that is there before and after one request differs in
    its salary at most. *)
Theorem cat_identity_is_fixed r db k c c' :
  spy_cats db !! k = Some c →
  spy_cats (serve r db) !! k = Some c' →
  SpyCatDB.name c' = SpyCatDB.name c ∧
  SpyCatDB.years_of_experience c' = SpyCatDB.years_of_experience c ∧
  SpyCatDB.breed c' = SpyCatDB.breed c ∧
  SpyCatDB.mission_id c' = SpyCatDB.mission_id c.
Proof.
  intros Hc [(c0 & Hc0 & H)|[Hnone _]]%serve_spy_cats; [|congruence].
  rewrite Hc in Hc0. by injection Hc0 as <-.
Qed.

Lemma cat_identity_is_fixed_witness :
  ∃ c', spy_cats (serve (UpdateCatSalary 1 2500%float) db_tom) !! 1 = Some c' ∧
        SpyCatDB.name c' = "Tom" ∧ SpyCatDB.breed c' = "persian".
Proof.
  exists (SpyCatDB.set_salary 2500%float (new_cat tom)).
  assert (H1 : spy_cats db_tom !! 1 = Some (new_cat tom)) by (vm_compute; reflexivity).
  assert (H2 : spy_cats (serve (UpdateCatSalary 1 2500%float) db_tom) !! 1
               = Some (SpyCatDB.set_salary 2500%float (new_cat tom)))
    by (vm_compute; reflexivity).
  destruct (cat_identity_is_fixed (UpdateCatSalary 1 2500%float) db_tom 1 _ _ H1 H2)
    as (Hn & _ & Hb & _).
  split; [exact H2|]. split; [exact Hn|exact Hb].
Defined.

Lemma reachable_cats_unassigned db : reachable db → cats_unassigned db.
Proof.
  induction 1 as [|r db _ IH]; [intros k c; simpl; by rewrite lookup_empty|].
  intros k c' [(c & Hc & _ & Hy & _ & Hm)|(_ & reply & cat & _ & Hvalid & ->)]%serve_spy_cats.
  - rewrite Hy, Hm. by apply (IH k).
  - split; [done|]. simpl. unfold SpyCatCreate_valid in Hvalid.
    apply andb_true_iff in Hvalid as [Hy%Z.leb_le _]. done.
Qed.

(** X8. On a database that requests have built no cat has a mission reference
    (no route ever writes [SpyCatDB.mission_id]) and every cat has a
    non-negative experience. *)
Theorem reachable_cats_have_no_mission db k c :
  reachable db → spy_cats db !! k = Some c →
  SpyCatDB.mission_id c = None ∧ 0 ≤ SpyCatDB.years_of_experience c.
Proof. intros Hr Hc. by apply (reachable_cats_unassigned db Hr k). Qed.

Lemma reachable_cats_have_no_mission_witness :
  SpyCatDB.mission_id (new_cat tom) = None ∧ 0 ≤ SpyCatDB.years_of_experience (new_cat tom).
Proof.
  apply (reachable_cats_have_no_mission db_tom 1 (new_cat tom)).
  - apply reachable_serve, reachable_empty.
  - vm_compute. reflexivity.
Defined.

Lemma reachable_cat_keys db k c :
  reachable db → spy_cats db !! k = Some c → in_int64 k = true.
Proof.
  intros Hr. revert k c. induction Hr as [|r db _ IH]; intros k c'; simpl;
    [by rewrite lookup_empty|].
  intros Hk. destruct (serve_spy_cats r db k c' Hk)
    as [(c & Hc & _)|(Hnone & reply & cat & -> & Hvalid & _)]; [by eauto|].
  simpl in Hk. rewrite Hvalid, create_cat_run in Hk.
  destruct (validate_breed reply (sc_breed cat)); simpl in Hk; [|congruence].
  destruct (in_int64 (sc_years_of_experience cat)); simpl in Hk; [|congruence].
  destruct (in_int64 (next_id (spy_cats db))) eqn:Hin; simpl in Hk; [|congruence].
  destruct (PrimFloat.is_nan (sc_salary cat)); simpl in Hk; [congruence|].
  destruct (decide (k = next_id (spy_cats db))) as [->|Hne]; [done|].
  rewrite lookup_insert_ne in Hk by done. congruence.
Qed.

(** X9. So [delete_cat] never refuses an existing cat of a reachable
    database, whether or not a mission names it in [cat_id]: the cat is
    deleted in one commit, [read_cat] no longer finds it, and every mission
    row, with its [cat_id], stays as it was. *)
Theorem delete_cat_always_allowed db cat_id c :
  reachable db → spy_cats db !! cat_id = Some c →
  response (run_request (delete_cat cat_id) db) = Returned "Cat deleted successfully" ∧
  persisted (run_request (delete_cat cat_id) db) = with_spy_cats (delete cat_id) db ∧
  response (run_request (read_cat cat_id) (persisted (run_request (delete_cat cat_id) db)))
    = Raised CatNotFound ∧
  missions (persisted (run_request (delete_cat cat_id) db)) = missions db.
Proof.
  intros Hr Hc. destruct (reachable_cats_unassigned db Hr _ _ Hc) as [Hm _].
  rewrite delete_cat_run, Hc, Hm. simpl. rewrite read_cat_run. simpl.
  rewrite lookup_delete_eq. unfold not_found.
  by rewrite (reachable_cat_keys db cat_id c Hr Hc).
Qed.

Lemma delete_cat_always_allowed_witness :
  response (run_request (delete_cat 1) db_tom_on_mission)
    = Returned "Cat deleted successfully" ∧
  MissionDB.cat_id <$> missions (persisted (run_request (delete_cat 1) db_tom_on_mission)) !! 1
    = Some (Some 1).
Proof.
  destruct (delete_cat_always_allowed db_tom_on_mission 1 (new_cat tom))
    as (Hr & _ & _ & Hm).
  - apply reachable_serve, reachable_serve, reachable_empty.
  - vm_compute. reflexivity.
  - split; [exact Hr|]. rewrite Hm. vm_compute. reflexivity.
Defined.

(** ** The targets of a new mission *)

Lemma owned_rows_insert mid k t (tbl : gmap Z TargetDB.row) :
  tbl !! k = None →
  (filter (λ kt : Z * TargetDB.row, owned_by mid kt.2 = true)
     (map_to_list (<[k := t]> tbl))).*2
  ≡ₚ (if owned_by mid t then [t] else []) ++
     (filter (λ kt : Z * TargetDB.row, owned_by mid kt.2 = true) (map_to_list tbl)).*2.
Proof.
  intros Hk. rewrite (map_to_list_insert tbl k t Hk), filter_cons. simpl.
  destruct (owned_by mid t) eqn:E.
  - by rewrite decide_True.
  - rewrite decide_False by (rewrite ?E; done). done.
Qed.

Lemma owned_rows_insert_targets mid' mid ts (tbl : gmap Z TargetDB.row) :
  (filter (λ kt : Z * TargetDB.row, owned_by mid' kt.2 = true)
     (map_to_list (insert_targets mid ts tbl))).*2
  ≡ₚ (if decide (mid = mid') then new_target mid <$> ts else []) ++
     (filter (λ kt : Z * TargetDB.row, owned_by mid' kt.2 = true) (map_to_list tbl)).*2.
Proof.
  revert tbl. induction ts as [|target r IH]; intros tbl; simpl.
  - by destruct (decide (mid = mid')).
  - rewrite IH, owned_rows_insert by apply next_id_fresh.
    rewrite owned_by_new_target. destruct (decide (mid = mid')) as [->|Hne].
    + rewrite bool_decide_true by done. simpl. by rewrite Permutation_middle.
    + by rewrite bool_decide_false.
Qed.

(** X10. A mission that [create_mission] returns owns, when the handler is
    over, exactly the targets of the request: one row per listed target, with
    its name and country, empty notes and not completed.  The response lists
    these rows. *)
Theorem create_mission_stores_its_targets db mission r :
  reachable db →
  response (run_request (create_mission mission) db) = Returned r →
  m_targets r
    = mission_targets (persisted (run_request (create_mission mission) db)) (m_id r) ∧
  (m_targets r).*2 ≡ₚ new_target (m_id r) <$> mc_targets mission.
Proof.
  intros [Hown _]%reachable_invariants. rewrite create_mission_run.
  destruct (target_count_ok mission); simpl; [|done].
  destruct (cat_accepted db (mc_cat_id mission)); simpl; [|done].
  intros [= <-]. simpl. split; [done|].
  unfold mission_targets, targets_added. simpl.
  rewrite owned_rows_insert_targets, decide_True by done.
  fold (mission_targets db (next_id (missions db))).
  rewrite no_targets_of_next_mission by done. simpl. by rewrite app_nil_r.
Qed.

Lemma create_mission_stores_its_targets_witness :
  ∃ r, response (run_request (create_mission two_targets) empty_db) = Returned r ∧
       (m_targets r).*2 ≡ₚ [new_target 1 target_a; new_target 1 target_b].
Proof.
  set (r := {| m_id := 1; m_is_completed := false; m_cat_id := None;
               m_targets := mission_targets db_pending 1 |}).
  assert (Hr : response (run_request (create_mission two_targets) empty_db) = Returned r)
    by (vm_compute; reflexivity).
  exists r. split; [exact Hr|].
  exact (proj2 (create_mission_stores_its_targets empty_db two_targets r reachable_empty Hr)).
Defined.

Lemma create_mission_frame db mission :
  spy_cats (persisted (run_request (create_mission mission) db)) = spy_cats db ∧
  (∀ k m, missions db !! k = Some m →
          missions (persisted (run_request (create_mission mission) db)) !! k = Some m) ∧
  (∀ k t, targets db !! k = Some t →
          targets (persisted (run_request (create_mission mission) db)) !! k = Some t).
Proof.
  rewrite create_mission_run.
  destruct (target_count_ok mission); simpl; [|done].
  destruct (cat_accepted db (mc_cat_id mission)); simpl; [|done].
  split; [done|]. split.
  - intros k m Hk. rewrite lookup_insert_ne; [done|].
    intros E. by rewrite <- E, next_id_fresh in Hk.
  - intros k t Hk. by apply insert_targets_old.
Qed.

(** X11. [create_mission] adds and never replaces: every cat, every mission
    and every target that was persisted before is persisted unchanged after
    it, whether the request is accepted or refused. *)
Theorem create_mission_keeps_rows db mission :
  spy_cats (persisted (run_request (create_mission mission) db)) = spy_cats db ∧
  (∀ k m, missions db !! k = Some m →
          missions (persisted (run_request (create_mission mission) db)) !! k = Some m) ∧
  (∀ k t, targets db !! k = Some t →
          targets (persisted (run_request (create_mission mission) db)) !! k = Some t).
Proof. apply create_mission_frame. Qed.

(** ** Missions and targets along requests *)

Lemma alter_owned_rows mid f k (tbl : gmap Z TargetDB.row) :
  (∀ t, owned_by mid (f t) = owned_by mid t) →
  length (filter (λ kt : Z * TargetDB.row, owned_by mid kt.2 = true)
            (map_to_list (alter f k tbl)))
  = length (filter (λ kt : Z * TargetDB.row, owned_by mid kt.2 = true) (map_to_list tbl)).
Proof.
  intros Hf. destruct (tbl !! k) as [t|] eqn:Hk.
  - rewrite <- (insert_delete_id tbl k t Hk) at 2.
    assert (alter f k tbl = <[k := f t]> (delete k tbl)) as ->.
    { apply map_eq. intros j. destruct (decide (j = k)) as [->|Hne].
      - by rewrite lookup_alter_eq, lookup_insert_eq, Hk.
      - by rewrite lookup_alter_ne, lookup_insert_ne, lookup_delete_ne. }
    rewrite !owned_targets_insert by apply lookup_delete_eq. by rewrite Hf.
  - by rewrite alter_id by (intros ? ?; congruence).
Qed.

Lemma targets_updated_alter target_id mid update d :
  targets (updated target_id mid update d) =
  alter (λ t, TargetDB.set_is_completed
                (default (TargetDB.is_completed t) (tu_is_completed update))
                (TargetDB.set_notes (default (TargetDB.notes t) (tu_notes update)) t))
        target_id (targets d).
Proof.
  apply map_eq. intros k. rewrite targets_updated.
  destruct (decide (k = target_id)) as [->|Hne].
  - by rewrite lookup_alter_eq.
  - by rewrite lookup_alter_ne.
Qed.

Lemma length_mission_targets_updated target_id mid update d mid' :
  length (mission_targets (updated target_id mid update d) mid')
  = length (mission_targets d mid').
Proof.
  unfold mission_targets. rewrite targets_updated_alter. by apply alter_owned_rows.
Qed.

Lemma length_mission_targets_serve r db mid m :
  targets_owned db → missions db !! mid = Some m →
  length (mission_targets (serve r db) mid) = length (mission_targets db mid).
Proof.
  intros Hown Hm.
  destruct r as [reply cat|cat_id salary|cat_id|mission|target_id update]; simpl.
  - destruct (SpyCatCreate_valid cat); [|done].
    destruct (create_cat_frame reply cat db) as [_ Ht]. unfold mission_targets. by rewrite Ht.
  - destruct (update_cat_salary_frame cat_id salary db) as [_ Ht].
    unfold mission_targets. by rewrite Ht.
  - destruct (delete_cat_frame cat_id db) as [_ Ht]. unfold mission_targets. by rewrite Ht.
  - rewrite create_mission_run. destruct (target_count_ok mission); simpl; [|done].
    destruct (cat_accepted db (mc_cat_id mission)); simpl; [|done].
    unfold mission_targets, targets_added. simpl.
    rewrite <- !(length_fmap snd), owned_rows_insert_targets.
    rewrite decide_False; [done|]. intros E. by rewrite <- E, next_id_fresh in Hm.
  - rewrite update_target_run.
    destruct (targets db !! target_id) as [t|]; [|done].
    destruct (target_mission db t) as [[mid0 m0]|]; [|done].
    destruct (MissionDB.is_completed m0); [done|].
    destruct (TargetDB.is_completed t && _)%bool; simpl; [done|].
    apply length_mission_targets_updated.
Qed.

Lemma serve_missions r db mid m' :
  missions (serve r db) !! mid = Some m' →
  (∃ m, missions db !! mid = Some m ∧ MissionDB.cat_id m' = MissionDB.cat_id m ∧
        (MissionDB.is_completed m = true → m' = m)) ∨
  (missions db !! mid = None ∧
   ∃ mission, r = CreateMission mission ∧ target_count_ok mission = true ∧
              mid = next_id (missions db) ∧
              serve r db = targets_added mission db).
Proof.
  destruct r as [reply cat|cat_id salary|cat_id|mission|target_id update]; simpl.
  - destruct (SpyCatCreate_valid cat); [|by left; eauto].
    destruct (create_cat_frame reply cat db) as [-> _]. left; eauto.
  - destruct (update_cat_salary_frame cat_id salary db) as [-> _]. left; eauto.
  - destruct (delete_cat_frame cat_id db) as [-> _]. left; eauto.
  - rewrite create_mission_run. destruct (target_count_ok mission) eqn:Hc; simpl;
      [|by left; eauto].
    destruct (cat_accepted db (mc_cat_id mission)); simpl; [|by left; eauto].
    destruct (decide (mid = next_id (missions db))) as [->|Hne].
    + intros _. right. split; [apply next_id_fresh|]. eauto.
    + rewrite lookup_insert_ne by done. left; eauto.
  - rewrite update_target_run.
    destruct (targets db !! target_id) as [t|]; [|by left; eauto].
    destruct (target_mission db t) as [[mid0 m0]|]; [|by left; eauto].
    destruct (MissionDB.is_completed m0); [by left; eauto|].
    destruct (TargetDB.is_completed t && _)%bool; simpl; [by left; eauto|].
    rewrite missions_updated. destruct (tu_is_completed update); [|by left; eauto].
    destruct (forallb _ _); [|by left; eauto].
    destruct (decide (mid = mid0)) as [->|Hne].
    + rewrite lookup_alter_eq. destruct (missions db !! mid0) as [m|]; [|done].
      simpl. intros [= <-]. left. exists m. split; [done|]. split; [done|].
      intros Hc. destruct m. simpl in *. by subst.
    + rewrite lookup_alter_ne by done. left; eauto.
Qed.

Lemma reachable_target_count db mid m :
  reachable db → missions db !! mid = Some m →
  (1 ≤ length (mission_targets db mid) ≤ 3)%nat.
Proof.
  intros Hr. revert mid m. induction Hr as [|r db Hr IH]; intros mid m; simpl;
    [by rewrite lookup_empty|].
  pose proof (reachable_invariants db Hr) as [Hown _].
  intros [(m0 & Hm0 & _)|(Hnone & mission & -> & Hc & -> & Heq)]%serve_missions.
  - rewrite (length_mission_targets_serve r db mid m0) by done. by apply (IH mid m0).
  - rewrite Heq, length_mission_targets_added by done. by apply target_count_ok_iff.
Qed.

(** X12. On a database that requests have built every mission owns at least
    one and at most three targets. *)
Theorem mission_has_one_to_three_targets db mid m :
  reachable db → missions db !! mid = Some m →
  (1 ≤ length (mission_targets db mid) ≤ 3)%nat.
Proof. apply reachable_target_count. Qed.

Lemma mission_has_one_to_three_targets_witness :
  (1 ≤ length (mission_targets db_completed 1) ≤ 3)%nat.
Proof.
  apply (mission_has_one_to_three_targets db_completed 1
           {| MissionDB.is_completed := true; MissionDB.cat_id := None |}).
  - apply reachable_serve, reachable_serve, reachable_serve, reachable_empty.
  - vm_compute. reflexivity.
Defined.

Lemma serve_mission_row r db mid m :
  missions db !! mid = Some m →
  ∃ m', missions (serve r db) !! mid = Some m' ∧
        MissionDB.cat_id m' = MissionDB.cat_id m ∧
        (MissionDB.is_completed m = true → m' = m).
Proof.
  intros Hm.
  assert (Hkept : is_Some (missions (serve r db) !! mid)).
  { destruct r as [reply cat|cat_id salary|cat_id|mission|target_id update]; simpl.
    - destruct (SpyCatCreate_valid cat); [|by eauto].
      destruct (create_cat_frame reply cat db) as [-> _]. eauto.
    - destruct (update_cat_salary_frame cat_id salary db) as [-> _]. eauto.
    - destruct (delete_cat_frame cat_id db) as [-> _]. eauto.
    - destruct (create_mission_frame db mission) as (_ & H & _). eauto.
    - rewrite update_target_run.
      destruct (targets db !! target_id) as [t|]; [|by eauto].
      destruct (target_mission db t) as [[mid0 m0]|]; [|by eauto].
      destruct (MissionDB.is_completed m0); [by eauto|].
      destruct (TargetDB.is_completed t && _)%bool; simpl; [by eauto|].
      rewrite missions_updated. destruct (tu_is_completed update); [|by eauto].
      destruct (forallb _ _); [|by eauto].
      destruct (decide (mid = mid0)) as [->|Hne].
      + rewrite lookup_alter_eq, Hm. simpl. eauto.
      + rewrite lookup_alter_ne by done. eauto. }
  destruct Hkept as [m' Hm']. exists m'. split; [done|].
  apply serve_missions in Hm' as [(m0 & Hm0 & Hcat & Hc)|[Hnone _]]; [|congruence].
  rewrite Hm in Hm0. injection Hm0 as <-. done.
Qed.

(** X13. No request deletes a mission, changes its [cat_id] or reopens it: a
    mission row is still there after any one request, with the same cat, and
    a completed mission row is not changed at all. *)
Theorem mission_row_is_kept r db mid m :
  missions db !! mid = Some m →
  ∃ m', missions (serve r db) !! mid = Some m' ∧
        MissionDB.cat_id m' = MissionDB.cat_id m ∧
        (MissionDB.is_completed m = true → m' = m).
Proof. apply serve_mission_row. Qed.

Lemma mission_row_is_kept_witness :
  ∃ m', missions (serve (UpdateTarget 1 reopen) db_completed) !! 1 = Some m' ∧
        m' = {| MissionDB.is_completed := true; MissionDB.cat_id := None |}.
Proof.
  destruct (mission_row_is_kept (UpdateTarget 1 reopen) db_completed 1
              {| MissionDB.is_completed := true; MissionDB.cat_id := None |})
    as (m' & Hm' & _ & Hsame).
  - vm_compute. reflexivity.
  - exists m'. split; [exact Hm'|]. apply Hsame. reflexivity.
Defined.

Lemma serve_targets r db k t :
  targets db !! k = Some t →
  ∃ t', targets (serve r db) !! k = Some t' ∧
        TargetDB.name t' = TargetDB.name t ∧
        TargetDB.country t' = TargetDB.country t ∧
        TargetDB.mission_id t' = TargetDB.mission_id t ∧
        (TargetDB.is_completed t = true → TargetDB.notes t' = TargetDB.notes t) ∧
        ((∃ mid m, target_mission db t = Some (mid, m) ∧ MissionDB.is_completed m = true) →
         t' = t).
Proof.
  intros Hk.
  destruct r as [reply cat|cat_id salary|cat_id|mission|target_id update]; simpl.
  - destruct (SpyCatCreate_valid cat); [|by eauto 10].
    destruct (create_cat_frame reply cat db) as [_ ->]. eauto 10.
  - destruct (update_cat_salary_frame cat_id salary db) as [_ ->]. eauto 10.
  - destruct (delete_cat_frame cat_id db) as [_ ->]. eauto 10.
  - destruct (create_mission_frame db mission) as (_ & _ & H). eauto 10.
  - rewrite update_target_run.
    destruct (targets db !! target_id) as [t0|] eqn:Ht0; [|by eauto 10].
    destruct (target_mission db t0) as [[mid0 m0]|] eqn:Hm0; [|by eauto 10].
    destruct (MissionDB.is_completed m0) eqn:Hc0; [by eauto 10|].
    destruct (TargetDB.is_completed t0 && _)%bool eqn:Hlock; simpl; [by eauto 10|].
    rewrite targets_updated. destruct (decide (k = target_id)) as [->|Hne]; [|by eauto 10].
    rewrite Hk in Ht0. injection Ht0 as <-. rewrite Hk. simpl. eexists. split; [done|].
    repeat split.
    + simpl. intros Hc. rewrite Hc in Hlock. simpl in Hlock.
      destruct (tu_notes update); [|done]. by rewrite bool_decide_true in Hlock by eauto.
    + intros (mid & m & Hm & Hc). congruence.
Qed.

(** X14. No request deletes a target or changes its name, its country or the
    mission it belongs to; the notes of a completed target are not changed
    either. *)
Theorem target_row_is_kept r db k t :
  targets db !! k = Some t →
  ∃ t', targets (serve r db) !! k = Some t' ∧
        TargetDB.name t' = TargetDB.name t ∧
        TargetDB.country t' = TargetDB.country t ∧
        TargetDB.mission_id t' = TargetDB.mission_id t ∧
        (TargetDB.is_completed t = true → TargetDB.notes t' = TargetDB.notes t).
Proof.
  intros Hk. destruct (serve_targets r db k t Hk) as (t' & ? & ? & ? & ? & ? & _).
  exists t'. done.
Qed.

Lemma target_row_is_kept_witness :
  ∃ t', targets (serve (UpdateTarget 1 (annotate "seen at the harbour")) db_half) !! 1
        = Some t' ∧ TargetDB.notes t' = "".
Proof.
  destruct (target_row_is_kept (UpdateTarget 1 (annotate "seen at the harbour")) db_half 1
              (TargetDB.set_is_completed true (new_target 1 target_a)))
    as (t' & Ht' & _ & _ & _ & Hn).
  - vm_compute. reflexivity.
  - exists t'. split; [exact Ht'|]. apply Hn. reflexivity.
Defined.

(** X15. Once a mission is completed, no sequence of requests changes its row
    or the row of any of its targets. *)
Theorem completed_mission_is_frozen rs db mid m k t :
  missions db !! mid = Some m → MissionDB.is_completed m = true →
  targets db !! k = Some t → TargetDB.mission_id t = Some mid →
  missions (serve_all rs db) !! mid = Some m ∧ targets (serve_all rs db) !! k = Some t.
Proof.
  revert db. induction rs as [|r rs IH]; intros db Hm Hc Hk Ho; simpl; [done|].
  destruct (serve_mission_row r db mid m Hm) as (m' & Hm' & _ & Hsame).
  rewrite (Hsame Hc) in Hm'.
  destruct (serve_targets r db k t Hk) as (t' & Ht' & _ & _ & _ & _ & Hfrozen).
  rewrite Hfrozen in Ht'.
  - by apply IH.
  - exists mid, m. unfold target_mission. by rewrite Ho, Hm.
Qed.

Lemma completed_mission_is_frozen_witness :
  targets (serve_all [UpdateTarget 2 reopen; UpdateTarget 2 (annotate "seen at the harbour");
                      CreateMission two_targets; UpdateTarget 2 reopen] db_completed) !! 2
  = targets db_completed !! 2.
Proof.
  transitivity (Some (TargetDB.set_is_completed true (new_target 1 target_b)));
    [|vm_compute; reflexivity].
  apply (completed_mission_is_frozen _ db_completed 1
           {| MissionDB.is_completed := true; MissionDB.cat_id := None |}).
  - vm_compute. reflexivity.
  - reflexivity.
  - vm_compute. reflexivity.
  - reflexivity.
Defined.

(** ** What [update_target] does *)

(** X16. A successful [update_target] that carries [is_completed] leaves the
    owning mission completed exactly when the value sent is true and every
    other target of the mission is completed.  So the mission completes with
    its last pending target, and not before. *)
Theorem update_target_completes_mission_iff db target_id update t mid m v msg m' :
  targets db !! target_id = Some t →
  target_mission db t = Some (mid, m) →
  tu_is_completed update = Some v →
  response (run_request (update_target target_id update) db) = Returned msg →
  missions (persisted (run_request (update_target target_id update) db)) !! mid = Some m' →
  (MissionDB.is_completed m' = true ↔
   v = true ∧
   ∀ k t0, k ≠ target_id → targets db !! k = Some t0 → owned_by mid t0 = true →
           TargetDB.is_completed t0 = true).
Proof.
  intros Ht Hown Hv. rewrite update_target_run, Ht, Hown.
  assert (Hid : TargetDB.mission_id t = Some mid ∧ missions db !! mid = Some m).
  { unfold target_mission in Hown. destruct (TargetDB.mission_id t) as [i|]; [|done].
    destruct (missions db !! i) eqn:E; [|done]. by injection Hown as -> ->. }
  destruct Hid as [Hid Hmm].
  destruct (MissionDB.is_completed m) eqn:Hc; [done|].
  destruct (TargetDB.is_completed t && _)%bool; [done|]. simpl. intros _.
  rewrite missions_updated, Hv.
  assert (Hall : forallb (λ kt, TargetDB.is_completed kt.2)
                   (mission_targets (updated target_id mid update db) mid) = true ↔
                 v = true ∧
                 ∀ k t0, k ≠ target_id → targets db !! k = Some t0 → owned_by mid t0 = true →
                         TargetDB.is_completed t0 = true).
  { rewrite forallb_mission_targets. unfold all_targets_completed. split.
    - intros Hall. split.
      + specialize (Hall target_id
          (TargetDB.set_is_completed (default (TargetDB.is_completed t) (tu_is_completed update))
             (TargetDB.set_notes (default (TargetDB.notes t) (tu_notes update)) t))).
        rewrite targets_updated, decide_True, Ht, Hv in Hall by done. simpl in Hall.
        apply Hall; [done|]. unfold owned_by. simpl. rewrite Hid. by apply bool_decide_eq_true.
      + intros k t0 Hne Hk Ho. apply (Hall k t0); [|done].
        by rewrite targets_updated, decide_False.
    - intros [-> Hothers] k t0. rewrite targets_updated.
      destruct (decide (k = target_id)) as [->|Hne]; [|by eauto].
      rewrite Ht, Hv. simpl. by intros [= <-]. }
  destruct (forallb _ _) eqn:E.
  - rewrite lookup_alter_eq, Hmm. simpl. intros [= <-]. simpl. by rewrite <- Hall.
  - rewrite Hmm. intros [= <-]. rewrite Hc, <- Hall. done.
Qed.

Lemma update_target_completes_mission_iff_witness :
  MissionDB.is_completed {| MissionDB.is_completed := true; MissionDB.cat_id := None |} = true
  ↔ true = true ∧
    ∀ k t0, k ≠ 2 → targets db_half !! k = Some t0 → owned_by 1 t0 = true →
            TargetDB.is_completed t0 = true.
Proof.
  apply (update_target_completes_mission_iff db_half 2 complete
           (new_target 1 target_b) 1
           {| MissionDB.is_completed := false; MissionDB.cat_id := None |} true
           "Target updated successfully"
           {| MissionDB.is_completed := true; MissionDB.cat_id := None |}).
  - vm_compute. reflexivity.
  - vm_compute. reflexivity.
  - reflexivity.
  - vm_compute. reflexivity.
  - vm_compute. reflexivity.
Defined.

(** X17. A successful [update_target] writes the addressed target and, at
    most, the mission that owns it, in one commit: the target takes the notes
    and the flag that were sent and keeps the rest; every other target, every
    cat and every other mission is as before. *)
Theorem update_target_writes_one_target db target_id update msg :
  response (run_request (update_target target_id update) db) = Returned msg →
  ∃ t,
    targets db !! target_id = Some t ∧
    targets (persisted (run_request (update_target target_id update) db)) !! target_id
    = Some {| TargetDB.name := TargetDB.name t;
              TargetDB.country := TargetDB.country t;
              TargetDB.notes := default (TargetDB.notes t) (tu_notes update);
              TargetDB.is_completed :=
                default (TargetDB.is_completed t) (tu_is_completed update);
              TargetDB.mission_id := TargetDB.mission_id t |} ∧
    (∀ k, k ≠ target_id →
          targets (persisted (run_request (update_target target_id update) db)) !! k
          = targets db !! k) ∧
    spy_cats (persisted (run_request (update_target target_id update) db)) = spy_cats db ∧
    (∀ mid, TargetDB.mission_id t ≠ Some mid →
            missions (persisted (run_request (update_target target_id update) db)) !! mid
            = missions db !! mid) ∧
    trace (run_request (update_target target_id update) db)
    = [persisted (run_request (update_target target_id update) db)].
Proof.
  rewrite update_target_run.
  destruct (targets db !! target_id) as [t|] eqn:Ht; [|done].
  destruct (target_mission db t) as [[mid0 m0]|] eqn:Hown; [|done].
  destruct (MissionDB.is_completed m0); [done|].
  destruct (TargetDB.is_completed t && _)%bool; [done|]. simpl. intros _.
  exists t. split; [done|]. split; [by rewrite targets_updated, decide_True, Ht|].
  split; [by intros k Hk; rewrite targets_updated, decide_False|].
  split; [apply spy_cats_updated|]. split; [|done].
  intros mid Hmid. rewrite missions_updated.
  destruct (tu_is_completed update); [|done]. destruct (forallb _ _); [|done].
  rewrite lookup_alter_ne; [done|]. intros <-. unfold target_mission in Hown.
  destruct (TargetDB.mission_id t) as [i|]; [|done].
  destruct (missions db !! i); [|done]. injection Hown as -> _. done.
Qed.

Lemma update_target_writes_one_target_witness :
  ∃ t, targets db_pending !! 1 = Some t ∧
       targets (persisted (run_request
                  (update_target 1 {| tu_notes := Some "seen at the harbour";
                                      tu_is_completed := Some true |}) db_pending)) !! 1
       = Some {| TargetDB.name := TargetDB.name t;
                 TargetDB.country := TargetDB.country t;
                 TargetDB.notes := "seen at the harbour";
                 TargetDB.is_completed := true;
                 TargetDB.mission_id := TargetDB.mission_id t |}.
Proof.
  destruct (update_target_writes_one_target db_pending 1
              {| tu_notes := Some "seen at the harbour"; tu_is_completed := Some true |}
              "Target updated successfully") as (t & Ht & Ht' & _).
  - vm_compute. reflexivity.
  - exists t. split; [exact Ht|exact Ht'].
Defined.

(** X18. On a database that requests have built, [update_target] fails in
    four ways only, and each persists nothing: [TargetNotFound], exactly when
    the key is a 64-bit integer that no target has; OverflowError, raised by
    the query exactly when the key is outside 64 bits;
    [MissionAlreadyCompleted]; and [NotesLockedOnCompletedTarget]. *)
Theorem update_target_refusals db target_id update e :
  reachable db →
  response (run_request (update_target target_id update) db) = Raised e →
  persisted (run_request (update_target target_id update) db) = db ∧
  trace (run_request (update_target target_id update) db) = [] ∧
  (e = TargetNotFound ∨ e = OverflowError ∨
   e = MissionAlreadyCompleted ∨ e = NotesLockedOnCompletedTarget) ∧
  (e = TargetNotFound ↔ targets db !! target_id = None ∧ in_int64 target_id = true) ∧
  (e = OverflowError ↔ targets db !! target_id = None ∧ in_int64 target_id = false).
Proof.
  intros [Hown _]%reachable_invariants. rewrite update_target_run.
  destruct (targets db !! target_id) as [t|] eqn:Ht.
  - destruct (Hown _ _ Ht) as (mid & m & Hid & Hm). unfold target_mission.
    rewrite Hid, Hm. destruct (MissionDB.is_completed m).
    + simpl. intros [= <-]. repeat split; auto; try done; by intros [? _].
    + destruct (TargetDB.is_completed t && _)%bool; simpl; [|done].
      intros [= <-]. repeat split; auto; try done; by intros [? _].
  - simpl. unfold not_found. destruct (in_int64 target_id); intros [= <-];
      repeat split; auto; try done; by intros [_ ?].
Qed.

Lemma update_target_refusals_witness :
  persisted (run_request (update_target 9 complete) db_half) = db_half.
Proof.
  apply (update_target_refusals db_half 9 complete TargetNotFound).
  - apply reachable_serve, reachable_serve, reachable_empty.
  - vm_compute. reflexivity.
Defined.

(** X19. The notes of a completed target are locked: while its mission is
    open, an [update_target] that carries notes is refused with
    [NotesLockedOnCompletedTarget] and persists nothing, whatever
    [is_completed] it carries; reopening the target and changing its notes
    takes two requests. *)
Theorem update_target_notes_locked db target_id update t mid m n :
  targets db !! target_id = Some t →
  target_mission db t = Some (mid, m) →
  MissionDB.is_completed m = false →
  TargetDB.is_completed t = true →
  tu_notes update = Some n →
  run_request (update_target target_id update) db =
  {| response := Raised NotesLockedOnCompletedTarget; persisted := db; trace := [] |}.
Proof.
  intros Ht Hown Hm Hc Hn. by rewrite update_target_run, Ht, Hown, Hm, Hc, Hn.
Qed.

Lemma update_target_notes_locked_witness :
  run_request (update_target 1 {| tu_notes := Some "seen at the harbour";
                                  tu_is_completed := Some false |}) db_half =
  {| response := Raised NotesLockedOnCompletedTarget; persisted := db_half; trace := [] |}.
Proof.
  apply (update_target_notes_locked db_half 1 _
           (TargetDB.set_is_completed true (new_target 1 target_a)) 1
           {| MissionDB.is_completed := false; MissionDB.cat_id := None |}
           "seen at the harbour").
  - vm_compute. reflexivity.
  - vm_compute. reflexivity.
  - reflexivity.
  - reflexivity.
  - reflexivity.
Defined.

(** ** Keys *)

Lemma max_id_nonneg {A} (tbl : gmap Z A) : 0 ≤ max_id tbl.
Proof. unfold max_id. induction (map_to_list tbl).*1; simpl; lia. Qed.

Lemma next_id_positive {A} (tbl : gmap Z A) : 1 ≤ next_id tbl.
Proof. pose proof (max_id_nonneg tbl). unfold next_id. lia. Qed.

Lemma insert_targets_positive mid ts (tbl : gmap Z TargetDB.row) :
  (∀ k t, tbl !! k = Some t → 1 ≤ k) →
  ∀ k t, insert_targets mid ts tbl !! k = Some t → 1 ≤ k.
Proof.
  revert tbl. induction ts as [|target r IH]; intros tbl Hpos; simpl; [done|].
  apply IH. intros k t. destruct (decide (next_id tbl = k)) as [<-|Hne].
  - intros _. apply next_id_positive.
  - rewrite lookup_insert_ne by done. apply Hpos.
Qed.

Lemma serve_spy_cats_keys r db k c' :
  spy_cats (serve r db) !! k = Some c' →
  is_Some (spy_cats db !! k) ∨ k = next_id (spy_cats db).
Proof.
  destruct r as [reply cat|cat_id salary|cat_id|mission|target_id update]; simpl.
  - destruct (SpyCatCreate_valid cat); [|by eauto].
    rewrite create_cat_run.
    destruct (validate_breed reply (sc_breed cat)); simpl; [|by eauto].
    destruct (in_int64 (sc_years_of_experience cat)); simpl; [|by eauto].
    destruct (in_int64 (next_id (spy_cats db))); simpl; [|by eauto].
    destruct (PrimFloat.is_nan (sc_salary cat)); simpl; [by eauto|].
    destruct (decide (k = next_id (spy_cats db))) as [->|Hne]; [by right|].
    rewrite lookup_insert_ne by done. eauto.
  - rewrite update_cat_salary_run.
    destruct (spy_cats db !! cat_id) as [c|] eqn:Hc; simpl; [|by eauto].
    destruct (PrimFloat.is_nan salary); simpl; [by eauto|].
    destruct (decide (k = cat_id)) as [->|Hne]; [by rewrite Hc; eauto|].
    rewrite lookup_insert_ne by done. eauto.
  - rewrite delete_cat_run. destruct (spy_cats db !! cat_id) as [c|]; [|by eauto].
    destruct (truthy (SpyCatDB.mission_id c)); simpl; [by eauto|].
    intros [_ Hk]%lookup_delete_Some. eauto.
  - destruct (create_mission_frame db mission) as (-> & _). eauto.
  - intros Hk.
    destruct (serve_spy_cats (UpdateTarget target_id update) db k c' Hk)
      as [(c & Hc & _)|(_ & ? & ? & ? & _)]; [by eauto|done].
Qed.

(** X20. Keys start at 1: on a database that requests have built every cat,
    mission and target has a positive key, so that the cat id 0 names no
    cat. *)
Theorem reachable_keys_are_positive db :
  reachable db → positive_keys db ∧ spy_cats db !! 0 = None.
Proof.
  intros Hr. assert (Hpos : positive_keys db).
  { induction Hr as [|r db Hr (Hc & Hm & Ht)]; [by repeat split; intros k x; simpl;
      rewrite lookup_empty|].
    repeat split.
    - intros k c' [[c Hk]|Hk]%serve_spy_cats_keys; [by eauto|].
      rewrite Hk. apply next_id_positive.
    - intros k m' [(m & Hk & _)|(_ & mission & _ & _ & Hk & _)]%serve_missions;
        [by eauto|]. rewrite Hk. apply next_id_positive.
    - intros k t' Hk.
      destruct r as [reply cat|cat_id salary|cat_id|mission|target_id update]; simpl in Hk.
      + destruct (SpyCatCreate_valid cat); [|by eauto].
        destruct (create_cat_frame reply cat db) as [_ Hsame]. rewrite Hsame in Hk. eauto.
      + destruct (update_cat_salary_frame cat_id salary db) as [_ Hsame].
        rewrite Hsame in Hk. eauto.
      + destruct (delete_cat_frame cat_id db) as [_ Hsame]. rewrite Hsame in Hk. eauto.
      + rewrite create_mission_run in Hk.
        destruct (target_count_ok mission); simpl in Hk; [|by eauto].
        destruct (cat_accepted db (mc_cat_id mission)); simpl in Hk; [|by eauto].
        revert Hk. by apply insert_targets_positive.
      + rewrite update_target_run in Hk.
        destruct (targets db !! target_id) as [t|]; [|by simpl in Hk; eauto].
        destruct (target_mission db t) as [[mid0 m0]|]; [|by simpl in Hk; eauto].
        destruct (MissionDB.is_completed m0); [by simpl in Hk; eauto|].
        destruct (TargetDB.is_completed t && _)%bool; simpl in Hk; [by eauto|].
        rewrite targets_updated in Hk. destruct (decide (k = target_id)); [|by eauto].
        destruct (targets db !! k) eqn:E; [by eauto|done]. }
  split; [done|]. destruct Hpos as (Hc & _).
  destruct (spy_cats db !! 0) as [c|] eqn:E; [|done]. apply Hc in E. lia.
Qed.

Lemma reachable_keys_are_positive_witness : spy_cats db_tom_on_mission !! 0 = None.
Proof.
  apply (reachable_keys_are_positive db_tom_on_mission).
  apply reachable_serve, reachable_serve, reachable_empty.
Defined.

(** ** Listing the cats *)

Lemma scan_spy_cats_Permutation db : scan_spy_cats db ≡ₚ map_to_list (spy_cats db).
Proof. apply merge_sort_Permutation. Qed.

Lemma page_sublist {A} skip limit (rows : list A) :
  limit_rows limit (offset_rows skip rows) `sublist_of` rows.
Proof.
  unfold limit_rows, offset_rows. destruct (limit <? 0).
  - apply sublist_drop.
  - etrans; [apply sublist_take|apply sublist_drop].
Qed.

(** X21. [read_cats] writes nothing and returns rows of the table only, each
    with its key and no key twice: as many as the limit allows of those left
    after the offset, a negative offset counting as none and a negative limit
    as no limit. *)
Theorem read_cats_page skip limit db rows :
  response (run_request (read_cats skip limit) db) = Returned rows →
  persisted (run_request (read_cats skip limit) db) = db ∧
  trace (run_request (read_cats skip limit) db) = [] ∧
  (∀ k c, (k, c) ∈ rows → spy_cats db !! k = Some c) ∧
  NoDup rows.*1 ∧
  length rows = if limit <? 0 then (size (spy_cats db) - Z.to_nat skip)%nat
                else (Z.to_nat limit `min` (size (spy_cats db) - Z.to_nat skip))%nat.
Proof.
  rewrite read_cats_run. simpl.
  destruct (in_int64 skip && in_int64 limit)%bool; [|done]. intros [= <-]. repeat split.
  - intros k c Hin. apply elem_of_map_to_list. rewrite <- scan_spy_cats_Permutation.
    revert Hin. apply sublist_subseteq, page_sublist.
  - apply (sublist_NoDup _ (scan_spy_cats db).*1).
    + rewrite scan_spy_cats_Permutation. apply NoDup_fst_map_to_list.
    + apply fmap_sublist, page_sublist.
  - unfold limit_rows, offset_rows.
    assert (Hlen : length (scan_spy_cats db) = size (spy_cats db)).
    { rewrite scan_spy_cats_Permutation. apply length_map_to_list. }
    destruct (limit <? 0); rewrite ?length_take, length_drop, Hlen; done.
Qed.

Lemma read_cats_page_witness :
  spy_cats db_tom !! 1 = Some (new_cat tom) ∧ NoDup [1].
Proof.
  destruct (read_cats_page 0 100 db_tom [(1, new_cat tom)]) as (_ & _ & Hin & Hnd & _).
  - vm_compute. reflexivity.
  - split; [apply Hin; left|exact Hnd].
Defined.

(** X22. Pages follow one another: with a non-negative offset and
    non-negative limits, all of them and the sums [skip + n] and [n + m]
    64-bit integers, the page of [n] rows at [skip] followed by the page of
    [m] rows at [skip + n] is the page of [n + m] rows at [skip]. *)
Theorem read_cats_pages_compose skip n m db :
  0 ≤ skip → 0 ≤ n → 0 ≤ m → skip + n < 2 ^ 63 → n + m < 2 ^ 63 →
  ∃ first second both,
    response (run_request (read_cats skip n) db) = Returned first ∧
    response (run_request (read_cats (skip + n) m) db) = Returned second ∧
    response (run_request (read_cats skip (n + m)) db) = Returned both ∧
    first ++ second = both.
Proof.
  intros Hs Hn Hm Hsn Hnm. rewrite !read_cats_run. simpl.
  assert (Hr : ∀ z, 0 ≤ z → z < 2 ^ 63 → in_int64 z = true).
  { intros z ? ?. unfold in_int64. apply andb_true_iff.
    split; [apply Z.leb_le|apply Z.ltb_lt]; lia. }
  rewrite !Hr by lia. simpl. eexists _, _, _.
  repeat split. unfold limit_rows, offset_rows.
  destruct (Z.ltb_spec n 0), (Z.ltb_spec m 0), (Z.ltb_spec (n + m) 0); try lia.
  rewrite Z2Nat.inj_add, <- drop_drop, Z2Nat.inj_add by lia. apply take_take_drop.
Qed.

Lemma read_cats_pages_compose_witness :
  ∃ first second both,
    response (run_request (read_cats 0 1) db_tom) = Returned first ∧
    response (run_request (read_cats (0 + 1) 1) db_tom) = Returned second ∧
    response (run_request (read_cats 0 (1 + 1)) db_tom) = Returned both ∧
    first ++ second = both.
Proof. apply (read_cats_pages_compose 0 1 1 db_tom); lia. Defined.

(** X23. With no offset, [read_cats] lists every cat when the limit is at
    least the number of cats (or negative); with the defaults, [skip = 0] and
    [limit = 100], that is as long as there are at most 100 cats. *)
Theorem read_cats_lists_all skip limit db rows :
  skip ≤ 0 → limit < 0 ∨ Z.of_nat (size (spy_cats db)) ≤ limit →
  response (run_request (read_cats skip limit) db) = Returned rows →
  ∀ k c, spy_cats db !! k = Some c ↔ (k, c) ∈ rows.
Proof.
  intros Hs Hl. rewrite read_cats_run. simpl.
  destruct (in_int64 skip && in_int64 limit)%bool; [|done]. intros [= <-] k c.
  assert (Hlen : length (scan_spy_cats db) = size (spy_cats db)).
  { rewrite scan_spy_cats_Permutation. apply length_map_to_list. }
  assert (limit_rows limit (offset_rows skip (scan_spy_cats db)) = scan_spy_cats db) as ->.
  { unfold limit_rows, offset_rows. replace (Z.to_nat skip) with 0%nat by lia.
    rewrite drop_0. destruct (Z.ltb_spec limit 0); [done|].
    apply take_ge. lia. }
  by rewrite scan_spy_cats_Permutation, elem_of_map_to_list.
Qed.

Lemma read_cats_lists_all_witness :
  spy_cats db_tom !! 1 = Some (new_cat tom) ↔ (1, new_cat tom) ∈ [(1, new_cat tom)].
Proof.
  apply (read_cats_lists_all 0 100 db_tom [(1, new_cat tom)]).
  - lia.
  - right. vm_compute. discriminate.
  - vm_compute. reflexivity.
Defined.

(** ** When a mission is accepted *)

(** X24. [create_mission] returns a mission exactly when the request lists one
    to three targets and its cat id is absent, zero, or the key of a cat.
    Nothing else is looked at; in particular the missions that already name
    the cat are not, so one cat can be given to any number of missions. *)
Theorem create_mission_accepted_iff db mission :
  (∃ r, response (run_request (create_mission mission) db) = Returned r) ↔
  (1 ≤ length (mc_targets mission) ≤ 3)%nat ∧
  (mc_cat_id mission = None ∨ mc_cat_id mission = Some 0 ∨
   ∃ c cat, mc_cat_id mission = Some c ∧ spy_cats db !! c = Some cat).
Proof.
  rewrite create_mission_run, <- target_count_ok_iff.
  destruct (target_count_ok mission); simpl.
  2:{ split.
      - intros [r H]. discriminate H.
      - intros [H _]. discriminate H. }
  unfold cat_accepted. destruct (mc_cat_id mission) as [c|]; simpl; [|split; eauto 10].
  destruct (Z.eqb_spec c 0) as [->|Hne]; simpl; [split; eauto 10|].
  destruct (spy_cats db !! c) as [cat|] eqn:Hc; simpl.
  - split; eauto 10.
  - split; [by intros [? ?]|]. intros [_ [|[[= ->]|(c' & cat & [= <-] & Hc')]]]; congruence.
Qed.

Example create_mission_same_cat_twice :
  ∃ r1 r2,
    response (run_request (create_mission tom_mission) db_tom) = Returned r1 ∧
    response (run_request (create_mission tom_mission) db_tom_on_mission) = Returned r2 ∧
    m_cat_id r1 = Some 1 ∧ m_cat_id r2 = Some 1 ∧ m_id r1 ≠ m_id r2.
Proof.
  eexists _, _. split; [vm_compute; reflexivity|].
  split; [vm_compute; reflexivity|]. simpl. repeat split. lia.
Qed.

(** ** Completion on every persisted database *)

Lemma has_target_frame d d' mid :
  targets d' = targets d → has_target d' mid ↔ has_target d mid.
Proof. unfold has_target. by intros ->. Qed.












Lemma reachable_observable db : reachable db → observable db.
Proof. induction 1; [apply observable_empty|by apply observable_serve]. Qed.




